(** * Word clock (wordclock_9_7.py): time resolver and layout verifier

    A shallow embedding of [get_active_words] and [verify_layout] together
    with the static tables [GRID_LAYOUT], [WORD_POSITIONS], [HOUR_WORDS] and
    [INTERNAL_KEY_TO_WORD].

    Python integers are [Z]; word keys are Python strings, hence [string];
    the result of [dict.get] is [option string] ([None] for a missing key);
    dictionaries that are only looked up are [gmap]s, the dictionary that is
    iterated ([word_map.items()]) is an association list in insertion order
    (a dictionary has distinct keys; the statements that need it say so).

    [verify_layout] is embedded with its effects: the value it computes is
    the list of lines it prints together with its outcome, which is the
    returned boolean or the [TypeError] that escapes when a comparison or
    [len] meets a value of the wrong kind.

    Further embedded: the computation of the highlighted cells in
    [draw_word_clock], the candidate loop of [find_font], and the body of
    the service loop of the main block, with what they read from outside
    (file system, clock, upload result, image hash) as arguments. *)

From Stdlib Require Import ZArith String Ascii List Lia.
From stdpp Require Import base tactics option list gmap strings.

Local Open Scope string_scope.
Local Open Scope list_scope.
Local Open Scope Z_scope.

Set Warnings "-register-all,-clear-no-such-hyp".

(** ** Static tables *)

Module Tables.

(** [HOUR_WORDS]: hour number (1-12) to the internal hour key. *)
Definition HOUR_WORDS : gmap Z string :=
  list_to_map
    [ (1, "ONE_H"); (2, "TWO_H"); (3, "THREE_H"); (4, "FOUR_H");
      (5, "FIVE_H"); (6, "SIX_H"); (7, "SEVEN_H"); (8, "EIGHT_H");
      (9, "NINE_H"); (10, "TEN_H"); (11, "ELEVEN_H"); (12, "TWELVE_H") ].

(** [INTERNAL_KEY_TO_WORD]: internal key to its literal text in the grid. *)
Definition INTERNAL_KEY_TO_WORD : gmap string string :=
  list_to_map
    [ ("IT", "IT"); ("IS", "IS"); ("A", "A"); ("QUARTER", "QUARTER");
      ("TWENTY", "TWENTY"); ("FIVE_M", "FIVE"); ("HALF", "HALF");
      ("TEN_M", "TEN"); ("MINUTES", "MINUTES"); ("PAST", "PAST");
      ("TO", "TO"); ("OCLOCK", "OCLOCK");
      ("ONE_H", "ONE"); ("TWO_H", "TWO"); ("THREE_H", "THREE");
      ("FOUR_H", "FOUR"); ("FIVE_H", "FIVE"); ("SIX_H", "SIX");
      ("SEVEN_H", "SEV"); ("EIGHT_H", "EIGHT"); ("NINE_H", "NINE");
      ("TEN_H", "TEN"); ("ELEVEN_H", "ELEVEN"); ("TWELVE_H", "TWELVE") ].

End Tables.

(** ** Time logic *)

Module Resolver.

(** [x in range(lo, hi)] for an integer [x]. *)
Definition in_range (x lo hi : Z) : bool := (lo <=? x) && (x <? hi).

(** The chained comparison [0 < minute_precise < 35]. *)
Definition past_half (minute_precise : Z) : bool :=
  (0 <? minute_precise) && (minute_precise <? 35).

(** The [if]/[elif] ladder over the five-minute intervals: the keys that
    the selected branch adds to the empty [temp_keys]. *)
Definition interval_keys (minute_precise : Z) (current_hour_key : option string)
  : list (option string) :=
  if minute_precise <? 5 then [current_hour_key; Some "OCLOCK"]
  else if minute_precise <? 10 then [Some "FIVE_M"]
  else if minute_precise <? 15 then [Some "TEN_M"]
  else if minute_precise <? 20 then [Some "A"; Some "QUARTER"]
  else if minute_precise <? 25 then [Some "TWENTY"]
  else if minute_precise <? 30 then [Some "TWENTY"; Some "FIVE_M"]
  else if minute_precise <? 35 then [Some "HALF"]
  else if minute_precise <? 40 then [Some "TWENTY"; Some "FIVE_M"]
  else if minute_precise <? 45 then [Some "TWENTY"]
  else if minute_precise <? 50 then [Some "A"; Some "QUARTER"]
  else if minute_precise <? 55 then [Some "TEN_M"]
  else [Some "FIVE_M"].

(** [get_active_words(hour, minute, hour_words_map)].  [temp_keys] holds
    Python values that are a string or [None]; the final comprehension
    [[key for key in temp_keys if key is not None]] is [omap id]. *)
Definition get_active_words (hour minute : Z) (hour_words_map : gmap Z string)
  : list string :=
  let active_keys := ["IT"; "IS"] in
  let display_hour := hour `mod` 12 in
  let display_hour := if display_hour =? 0 then 12 else display_hour in
  let minute_precise := minute in
  let current_hour_key := hour_words_map !! display_hour in
  let next_hour := display_hour `mod` 12 + 1 in
  let next_hour_key := hour_words_map !! next_hour in
  let show_minutes_word :=
    in_range minute_precise 5 15 || in_range minute_precise 20 30 ||
    in_range minute_precise 35 45 || in_range minute_precise 50 60 in
  let temp_keys := interval_keys minute_precise current_hour_key in
  let temp_keys :=
    if show_minutes_word then temp_keys ++ [Some "MINUTES"] else temp_keys in
  let temp_keys :=
    if past_half minute_precise then
      if negb (in_range minute_precise 30 35) && negb (in_range minute_precise 0 5)
      then temp_keys ++ [Some "PAST"] else temp_keys
    else if 35 <=? minute_precise then temp_keys ++ [Some "TO"]
    else temp_keys in
  let temp_keys :=
    if past_half minute_precise then temp_keys ++ [current_hour_key]
    else if 35 <=? minute_precise then temp_keys ++ [next_hour_key]
    else temp_keys in
  active_keys ++ omap id temp_keys.

(** The 12-hour normalisation used above, and the hour after it. *)
Definition display_hour_of (hour : Z) : Z :=
  if hour `mod` 12 =? 0 then 12 else hour `mod` 12.

Definition next_hour_of (hour : Z) : Z := display_hour_of hour `mod` 12 + 1.

End Resolver.

(** ** Layout verification *)

(** [verify_layout] inspects its arguments dynamically ([isinstance], [len],
    truthiness), so they are modelled as Python values of the kinds the
    function distinguishes: [None], integers, strings, lists and tuples. *)
Module PyVal.

Inductive pyval : Type :=
  | VNone
  | VInt (z : Z)
  | VStr (s : string)
  | VList (items : list pyval)
  | VTuple (items : list pyval).

(** Truth value of an object: [None], [0], the empty string and empty
    sequences are false. *)
Definition truthy (v : pyval) : bool :=
  match v with
  | VNone => false
  | VInt z => negb (z =? 0)
  | VStr s => negb (String.eqb s EmptyString)
  | VList items | VTuple items => match items with [] => false | _ => true end
  end.

(** [len(v)]; [None] stands for the [TypeError] raised on objects without a
    length. *)
Definition py_len (v : pyval) : option Z :=
  match v with
  | VStr s => Some (Z.of_nat (String.length s))
  | VList items | VTuple items => Some (Z.of_nat (length items))
  | VNone | VInt _ => None
  end.

(** [s[lo:hi]] on a string, for [0 <= lo <= hi]; like Python's slice it is
    truncated at the end of [s]. *)
Definition slice (s : string) (lo hi : Z) : string :=
  substring (Z.to_nat lo) (Z.to_nat (hi - lo)) s.

(** [0 <= v < bound]: comparing [0] with anything but a number raises
    [TypeError] ([None]). *)
Definition index_in (v : pyval) (bound : Z) : option bool :=
  match v with
  | VInt i => Some ((0 <=? i) && (i <? bound))
  | _ => None
  end.

(** [a <= b] on the values that reach it. *)
Definition py_le (a b : pyval) : option bool :=
  match a, b with
  | VInt x, VInt y => Some (x <=? y)
  | _, _ => None
  end.

(** Short-circuit [and] of two tests that may raise. *)
Definition and_then (a b : option bool) : option bool :=
  match a with
  | Some true => b
  | _ => a
  end.

(** [isinstance(v, (list, tuple)) and len(v) == 3], with the three items
    of the unpacking [row, start_col, end_col = v]. *)
Definition unpack3 (v : pyval) : option (pyval * pyval * pyval) :=
  match v with
  | VList [a; b; c] | VTuple [a; b; c] => Some (a, b, c)
  | _ => None
  end.

End PyVal.

Module Verifier.
Import PyVal.

(** The lines [verify_layout] prints, one constructor per [print] call,
    carrying the values interpolated into the text. *)
Inductive msg : Type :=
  | Verifying
  | GridInvalid
  | GridRowInvalid (r len expected_cols : Z)
  | GridDimensions (grid_rows grid_cols : Z)
  | NoPositions (key expected_word : string)
  | Unverifiable (key : string)
  | SliceIndexError (key : string) (start_col stop row : Z)
  | OutOfBounds (key : string) (pos_info : pyval) (expected_word : string)
                (grid_rows grid_cols : Z)
  | MalformedPosition (key : string) (pos_info : pyval) (expected_word : string)
  | Mismatch (key expected_word : string) (positions : pyval)
             (extracted_word : string)
  | Successful
  | Failed.

(** How a call ends: it returns a boolean or a [TypeError] escapes. *)
Inductive outcome : Type :=
  | Returns (b : bool)
  | RaisesTypeError.

(** The row loop of the grid structure check.  [None]: every row passed.
    The error line interpolates [len(row_str)], which itself raises on a
    row without a length. *)
Fixpoint check_rows (rows : list pyval) (r grid_cols : Z)
  : option (list msg * outcome) :=
  match rows with
  | [] => None
  | row_str :: rest =>
      let bad :=
        match row_str with
        | VStr s => negb (Z.of_nat (String.length s) =? grid_cols)
        | _ => true
        end in
      if bad then
        match py_len row_str with
        | Some n => Some ([GridRowInvalid r n grid_cols], Returns false)
        | None => Some ([], RaisesTypeError)
        end
      else check_rows rest (r + 1) grid_cols
  end.

(** The bounds test
    [0 <= row < grid_rows and 0 <= start_col < grid_cols and
     0 <= end_col < grid_cols and start_col <= end_col]. *)
Definition coords_ok (grid_rows grid_cols : Z) (row start_col end_col : pyval)
  : option bool :=
  and_then (index_in row grid_rows)
    (and_then (index_in start_col grid_cols)
       (and_then (index_in end_col grid_cols) (py_le start_col end_col))).

(** One iteration of [for pos_info in pos_list]. *)
Inductive step : Type :=
  | Segment (extracted_segment : string)
  | Defect (m : msg)
  | StepRaises.

Definition check_position (grid : list pyval) (grid_rows grid_cols : Z)
    (key expected_word : string) (pos_info : pyval) : step :=
  match unpack3 pos_info with
  | Some (row, start_col, end_col) =>
      match coords_ok grid_rows grid_cols row start_col end_col with
      | None => StepRaises
      | Some false =>
          Defect (OutOfBounds key pos_info expected_word grid_rows grid_cols)
      | Some true =>
          match row, start_col, end_col with
          | VInt row, VInt start_col, VInt end_col =>
              match grid !! Z.to_nat row with
              | Some (VStr line) => Segment (slice line start_col (end_col + 1))
              | Some _ => StepRaises
              | None => Defect (SliceIndexError key start_col (end_col + 1) row)
              end
          | _, _, _ => StepRaises
          end
      end
  | None => Defect (MalformedPosition key pos_info expected_word)
  end.

(** The whole [for pos_info in pos_list] loop: it either runs to the end
    with the accumulated [extracted_word], or leaves by [break] after
    printing one error ([valid_positions_found = False]), or raises. *)
Inductive scan : Type :=
  | Extracted (extracted_word : string)
  | Aborted (m : msg)
  | ScanRaises.

Fixpoint scan_positions (grid : list pyval) (grid_rows grid_cols : Z)
    (key expected_word : string) (pos_list : list pyval)
    (extracted_word : string) : scan :=
  match pos_list with
  | [] => Extracted extracted_word
  | pos_info :: rest =>
      match check_position grid grid_rows grid_cols key expected_word pos_info with
      | Segment extracted_segment =>
          scan_positions grid grid_rows grid_cols key expected_word rest
            (extracted_word +:+ extracted_segment)
      | Defect m => Aborted m
      | StepRaises => ScanRaises
      end
  end.

(** [positions if isinstance(positions, list) else [positions]]. *)
Definition pos_list_of (positions : pyval) : list pyval :=
  match positions with
  | VList items => items
  | _ => [positions]
  end.

(** The body of the word-map loop for one key that was not checked before:
    the lines it prints and whether it leaves [all_ok] alone ([Pass]),
    clears it ([Fail]) or raises. *)
Inductive verdict : Type :=
  | Pass (printed : list msg)
  | Fail (printed : list msg)
  | KeyRaises.

Definition check_key (grid : list pyval) (grid_rows grid_cols : Z)
    (key_to_word_map : gmap string string) (key : string) (positions : pyval)
  : verdict :=
  if negb (truthy positions) then
    match key_to_word_map !! key with
    | Some expected_word => Pass [NoPositions key expected_word]
    | None => Pass []
    end
  else
    match key_to_word_map !! key with
    | None => Pass [Unverifiable key]
    | Some expected_word =>
        let pos_list := pos_list_of positions in
        match scan_positions grid grid_rows grid_cols key expected_word
                pos_list EmptyString with
        | ScanRaises => KeyRaises
        | Aborted m => Fail [m]
        | Extracted extracted_word =>
            if negb (String.eqb extracted_word expected_word)
            then Fail [Mismatch key expected_word positions extracted_word]
            else Pass []
        end
    end.

(** [for key, positions in word_map.items()] with the loop state
    [checked_keys], [all_ok], followed by the closing line and
    [return all_ok]. *)
Fixpoint check_items (grid : list pyval) (grid_rows grid_cols : Z)
    (key_to_word_map : gmap string string) (items : list (string * pyval))
    (checked_keys : gset string) (all_ok : bool) : list msg * outcome :=
  match items with
  | [] => ([if all_ok then Successful else Failed], Returns all_ok)
  | (key, positions) :: rest =>
      if decide (key ∈ checked_keys) then
        check_items grid grid_rows grid_cols key_to_word_map rest
          checked_keys all_ok
      else
        let checked_keys := {[key]} ∪ checked_keys in
        match check_key grid grid_rows grid_cols key_to_word_map key positions with
        | Pass printed =>
            let '(log, out) :=
              check_items grid grid_rows grid_cols key_to_word_map rest
                checked_keys all_ok in
            (printed ++ log, out)
        | Fail printed =>
            let '(log, out) :=
              check_items grid grid_rows grid_cols key_to_word_map rest
                checked_keys false in
            (printed ++ log, out)
        | KeyRaises => ([], RaisesTypeError)
        end
  end.

(** [verify_layout(grid, word_map, key_to_word_map)]: the printed lines and
    the outcome.  The first test is
    [not grid or not isinstance(grid, list) or not grid[0] or
     not isinstance(grid[0], str)]: only a non-empty list whose first item
     is a non-empty string gets past it. *)
Definition verify_layout (grid : pyval) (word_map : list (string * pyval))
    (key_to_word_map : gmap string string) : list msg * outcome :=
  match grid with
  | VList ((VStr first :: _) as rows) =>
      if negb (truthy (VStr first)) then ([Verifying; GridInvalid], Returns false)
      else
        let grid_rows := Z.of_nat (length rows) in
        let grid_cols := Z.of_nat (String.length first) in
        match check_rows rows 0 grid_cols with
        | Some (log, out) => (Verifying :: log, out)
        | None =>
            let '(log, out) :=
              check_items rows grid_rows grid_cols key_to_word_map word_map
                ∅ true in
            (Verifying :: GridDimensions grid_rows grid_cols :: log, out)
        end
  | _ => ([Verifying; GridInvalid], Returns false)
  end.

End Verifier.

(** ** The canonical layout *)

Module Layout.
Import PyVal.

(** A position tuple [(row, start_col, end_col)]. *)
Definition span (row start_col end_col : Z) : pyval :=
  VTuple [VInt row; VInt start_col; VInt end_col].

Definition GRID_LAYOUT : pyval :=
  VList
    [ VStr "ITLISMTENSA"; VStr "HALFQUARTER"; VStr "TWENTYFIVES";
      VStr "MINUTESPAST"; VStr "TOXONELEVEN"; VStr "TWOSIXTHREE";
      VStr "FOURFIVESEV"; VStr "EIGHTNINEAM"; VStr "PMTWELVEXTN";
      VStr "OCLOCKYTIME" ].

(** [WORD_POSITIONS], in the order the dictionary literal lists its keys. *)
Definition WORD_POSITIONS : list (string * pyval) :=
  [ ("IT", VList [span 0 0 1]);
    ("IS", VList [span 0 3 4]);
    ("A", VList [span 0 10 10]);
    ("MINUTES", VList [span 3 0 6]);
    ("PAST", VList [span 3 7 10]);
    ("TO", VList [span 4 0 1]);
    ("OCLOCK", VList [span 9 0 5]);
    ("QUARTER", VList [span 1 4 10]);
    ("TWENTY", VList [span 2 0 5]);
    ("FIVE_M", VList [span 2 6 9]);
    ("HALF", VList [span 1 0 3]);
    ("TEN_M", VList [span 0 6 8]);
    ("ONE_H", VList [span 4 3 5]);
    ("TWO_H", VList [span 5 0 2]);
    ("THREE_H", VList [span 5 6 10]);
    ("FOUR_H", VList [span 6 0 3]);
    ("FIVE_H", VList [span 6 4 7]);
    ("SIX_H", VList [span 5 3 5]);
    ("SEVEN_H", VList [span 6 8 10]);
    ("EIGHT_H", VList [span 7 0 4]);
    ("NINE_H", VList [span 7 5 8]);
    ("TEN_H", VList [span 0 6 8]);
    ("ELEVEN_H", VList [span 4 5 10]);
    ("TWELVE_H", VList [span 8 2 7]) ].

End Layout.

(** ** Vocabulary for the statements below *)

Module Vocabulary.
Import Tables Resolver PyVal Verifier.

(** What [get_active_words] returns in each five-minute interval when both
    hour lookups succeed with keys [c] (current hour) and [n] (next hour).
    The interval 0-4 is split at minute 0, where the code's behaviour
    changes. *)
Definition phrase_table (m : Z) (c n : string) : list string :=
  if m =? 0 then ["IT"; "IS"; c; "OCLOCK"]
  else if m <? 5 then ["IT"; "IS"; c; "OCLOCK"; c]
  else if m <? 10 then ["IT"; "IS"; "FIVE_M"; "MINUTES"; "PAST"; c]
  else if m <? 15 then ["IT"; "IS"; "TEN_M"; "MINUTES"; "PAST"; c]
  else if m <? 20 then ["IT"; "IS"; "A"; "QUARTER"; "PAST"; c]
  else if m <? 25 then ["IT"; "IS"; "TWENTY"; "MINUTES"; "PAST"; c]
  else if m <? 30 then ["IT"; "IS"; "TWENTY"; "FIVE_M"; "MINUTES"; "PAST"; c]
  else if m <? 35 then ["IT"; "IS"; "HALF"; c]
  else if m <? 40 then ["IT"; "IS"; "TWENTY"; "FIVE_M"; "MINUTES"; "TO"; n]
  else if m <? 45 then ["IT"; "IS"; "TWENTY"; "MINUTES"; "TO"; n]
  else if m <? 50 then ["IT"; "IS"; "A"; "QUARTER"; "TO"; n]
  else if m <? 55 then ["IT"; "IS"; "TEN_M"; "MINUTES"; "TO"; n]
  else ["IT"; "IS"; "FIVE_M"; "MINUTES"; "TO"; n].

(** Consecutive (current, next) hour keys of [HOUR_WORDS]. *)
Definition hour_pairs : list (string * string) :=
  [ ("ONE_H", "TWO_H"); ("TWO_H", "THREE_H"); ("THREE_H", "FOUR_H");
    ("FOUR_H", "FIVE_H"); ("FIVE_H", "SIX_H"); ("SIX_H", "SEVEN_H");
    ("SEVEN_H", "EIGHT_H"); ("EIGHT_H", "NINE_H"); ("NINE_H", "TEN_H");
    ("TEN_H", "ELEVEN_H"); ("ELEVEN_H", "TWELVE_H"); ("TWELVE_H", "ONE_H") ].

(** The defect kinds of the printed error lines. *)
Definition is_malformed_grid (m : msg) : bool :=
  match m with GridInvalid | GridRowInvalid _ _ _ => true | _ => false end.

Definition is_out_of_bounds (m : msg) : bool :=
  match m with OutOfBounds _ _ _ _ _ => true | _ => false end.

Definition is_word_mismatch (m : msg) : bool :=
  match m with Mismatch _ _ _ _ => true | _ => false end.

Definition is_malformed_position (m : msg) : bool :=
  match m with MalformedPosition _ _ _ => true | _ => false end.

(** The three kinds named fatal by the error taxonomy. *)
Definition taxonomy_fatal (m : msg) : bool :=
  is_malformed_grid m || is_out_of_bounds m || is_word_mismatch m.

(** The defect kinds that clear [all_ok] inside the word-map loop or end
    the grid structure check. *)
Definition fatal (m : msg) : bool :=
  taxonomy_fatal m || is_malformed_position m.

(** A grid that passes the structure check: a non-empty list of strings
    of one common, non-zero length [cols]. *)
Definition rectangular (lines : list string) (cols : Z) : Prop :=
  lines ≠ [] ∧ 0 < cols ∧
  Forall (λ line, Z.of_nat (String.length line) = cols) lines.

Definition grid_of (lines : list string) : pyval := VList (VStr <$> lines).

(** A position entry that is an integer triple lying inside a
    [rows] x [cols] grid. *)
Definition in_bounds_entry (rows cols : Z) (pos_info : pyval) : bool :=
  match unpack3 pos_info with
  | Some (VInt r, VInt s, VInt e) =>
      (0 <=? r) && (r <? rows) && (0 <=? s) && (s <? cols) &&
      (0 <=? e) && (e <? cols) && (s <=? e)
  | _ => false
  end.

(** Position entries on which the bounds test cannot raise: whatever
    unpacks into three items holds three integers. *)
Definition typed_entry (pos_info : pyval) : bool :=
  match unpack3 pos_info with
  | Some (VInt _, VInt _, VInt _) => true
  | Some _ => false
  | None => true
  end.

Definition typed_map (word_map : list (string * pyval)) : bool :=
  forallb (λ kp, forallb typed_entry (pos_list_of kp.2)) word_map.

(** The lines the loop body prints for one key. *)
Definition key_report (grid : list pyval) (grid_rows grid_cols : Z)
    (key_to_word_map : gmap string string) (kp : string * pyval) : list msg :=
  match check_key grid grid_rows grid_cols key_to_word_map kp.1 kp.2 with
  | Pass printed | Fail printed => printed
  | KeyRaises => []
  end.

Definition key_passes (grid : list pyval) (grid_rows grid_cols : Z)
    (key_to_word_map : gmap string string) (kp : string * pyval) : bool :=
  match check_key grid grid_rows grid_cols key_to_word_map kp.1 kp.2 with
  | Pass _ => true
  | _ => false
  end.

(** The rows of [GRID_LAYOUT] as strings. *)
Definition canonical_lines : list string :=
  [ "ITLISMTENSA"; "HALFQUARTER"; "TWENTYFIVES"; "MINUTESPAST";
    "TOXONELEVEN"; "TWOSIXTHREE"; "FOURFIVESEV"; "EIGHTNINEAM";
    "PMTWELVEXTN"; "OCLOCKYTIME" ].

End Vocabulary.

(** ** Further vocabulary: the resolver *)

Module ResolverVocabulary.
Import Tables Resolver.

(** The keys [get_active_words] writes as literals. *)
Definition fixed_words : list string :=
  [ "IT"; "IS"; "OCLOCK"; "FIVE_M"; "TEN_M"; "A"; "QUARTER"; "TWENTY";
    "HALF"; "MINUTES"; "PAST"; "TO" ].

(** The phrase for any integer minute, given the results [c] and [n] of
    the two hour lookups ([None] when the map lacks the hour). *)
Definition reading (minute : Z) (c n : option string) : list string :=
  ["IT"; "IS"] ++
  if minute <? 1 then option_list c ++ ["OCLOCK"]
  else if minute <? 5 then option_list c ++ ["OCLOCK"] ++ option_list c
  else if minute <? 10 then ["FIVE_M"; "MINUTES"; "PAST"] ++ option_list c
  else if minute <? 15 then ["TEN_M"; "MINUTES"; "PAST"] ++ option_list c
  else if minute <? 20 then ["A"; "QUARTER"; "PAST"] ++ option_list c
  else if minute <? 25 then ["TWENTY"; "MINUTES"; "PAST"] ++ option_list c
  else if minute <? 30 then
    ["TWENTY"; "FIVE_M"; "MINUTES"; "PAST"] ++ option_list c
  else if minute <? 35 then ["HALF"] ++ option_list c
  else if minute <? 40 then
    ["TWENTY"; "FIVE_M"; "MINUTES"; "TO"] ++ option_list n
  else if minute <? 45 then ["TWENTY"; "MINUTES"; "TO"] ++ option_list n
  else if minute <? 50 then ["A"; "QUARTER"; "TO"] ++ option_list n
  else if minute <? 55 then ["TEN_M"; "MINUTES"; "TO"] ++ option_list n
  else if minute <? 60 then ["FIVE_M"; "MINUTES"; "TO"] ++ option_list n
  else ["FIVE_M"; "TO"] ++ option_list n.

(** One (hour, minute) pair for each hour of twelve and each interval on
    which the result is constant. *)
Definition clock_readings : list (Z * Z) :=
  h ← seqZ 0 12; m ← [0; 1; 5; 10; 15; 20; 25; 30; 35; 40; 45; 50; 55];
  [(h, m)].

(** One (hour, minute) pair for each hour of twelve and each five-minute
    interval. *)
Definition face_readings : list (Z * Z) :=
  h ← seqZ 0 12; m ← [0; 5; 10; 15; 20; 25; 30; 35; 40; 45; 50; 55];
  [(h, m)].

End ResolverVocabulary.

(** ** Rendering: which cells are highlighted *)

(** [draw_word_clock] first turns [active_keys] into the set
    [active_char_positions] of (row, column) pairs and then draws every
    letter of the grid, in the highlight colour when its cell is in that
    set.  The set computation is embedded here; fonts, pixel coordinates
    and the raster image are left to the imaging library. *)
Module Renderer.
Import PyVal Verifier.

(** The line printed where a position lies outside the grid. *)
Inductive warning : Type :=
  | OutOfGrid (pos_info : pyval) (key : string).

(** [for col in range(start_col, end_col + 1):
       active_char_positions.add((row, col))]. *)
Definition add_span (row start_col end_col : Z) (active : gset (Z * Z))
  : gset (Z * Z) :=
  foldl (λ acc col, {[(row, col)]} ∪ acc) active
    (seqZ start_col (end_col + 1 - start_col)).

(** One iteration of [for pos_info in pos_list]: the set after it and the
    lines it prints; [None] when the bounds test raises [TypeError].  An
    entry that is not a sequence of three items is passed over silently. *)
Definition mark_position (grid_rows grid_cols : Z) (key : string)
    (pos_info : pyval) (active : gset (Z * Z))
  : option (gset (Z * Z) * list warning) :=
  match unpack3 pos_info with
  | Some (row, start_col, end_col) =>
      match coords_ok grid_rows grid_cols row start_col end_col with
      | None => None
      | Some true =>
          match row, start_col, end_col with
          | VInt row, VInt start_col, VInt end_col =>
              Some (add_span row start_col end_col active, [])
          | _, _, _ => None
          end
      | Some false => Some (active, [OutOfGrid pos_info key])
      end
  | None => Some (active, [])
  end.

Fixpoint mark_positions (grid_rows grid_cols : Z) (key : string)
    (pos_list : list pyval) (active : gset (Z * Z))
  : option (gset (Z * Z) * list warning) :=
  match pos_list with
  | [] => Some (active, [])
  | pos_info :: rest =>
      match mark_position grid_rows grid_cols key pos_info active with
      | None => None
      | Some (active, printed) =>
          match mark_positions grid_rows grid_cols key rest active with
          | None => None
          | Some (active, printed') => Some (active, printed ++ printed')
          end
      end
  end.

(** The loop [for key in active_keys] of [draw_word_clock], started from
    [active].  A key without an entry in [word_positions], or with an
    empty one, contributes nothing. *)
Fixpoint mark_keys (grid_rows grid_cols : Z) (active_keys : list string)
    (word_positions : gmap string pyval) (active : gset (Z * Z))
  : option (gset (Z * Z) * list warning) :=
  match active_keys with
  | [] => Some (active, [])
  | key :: rest =>
      let marked :=
        match word_positions !! key with
        | Some positions =>
            if truthy positions then
              mark_positions grid_rows grid_cols key (pos_list_of positions)
                active
            else Some (active, [])
        | None => Some (active, [])
        end in
      match marked with
      | None => None
      | Some (active, printed) =>
          match mark_keys grid_rows grid_cols rest word_positions active with
          | None => None
          | Some (active, printed') => Some (active, printed ++ printed')
          end
      end
  end.

(** [active_char_positions] as [draw_word_clock] has it when the drawing
    loop starts. *)
Definition active_char_positions (grid_rows grid_cols : Z)
    (active_keys : list string) (word_positions : gmap string pyval)
  : option (gset (Z * Z) * list warning) :=
  mark_keys grid_rows grid_cols active_keys word_positions ∅.

End Renderer.

Module RendererVocabulary.
Import PyVal Verifier Renderer Tables Resolver Layout.

(** The cells of one position entry that the renderer accepts. *)
Definition entry_covers (grid_rows grid_cols : Z) (pos_info : pyval)
    (cell : Z * Z) : Prop :=
  ∃ r s e, unpack3 pos_info = Some (VInt r, VInt s, VInt e) ∧
           (0 ≤ r < grid_rows ∧ 0 ≤ s < grid_cols ∧ 0 ≤ e < grid_cols ∧ s ≤ e) ∧
           cell.1 = r ∧ s ≤ cell.2 ≤ e.

(** The cells of the keys in [active_keys]. *)
Definition keys_cover (grid_rows grid_cols : Z) (active_keys : list string)
    (word_positions : gmap string pyval) (cell : Z * Z) : Prop :=
  ∃ key positions pos_info,
    key ∈ active_keys ∧ word_positions !! key = Some positions ∧
    truthy positions = true ∧ pos_info ∈ pos_list_of positions ∧
    entry_covers grid_rows grid_cols pos_info cell.

(** The position table as the dictionary the renderer looks keys up in. *)
Definition canonical_positions : gmap string pyval :=
  list_to_map WORD_POSITIONS.

(** The highlighted cells at a given time on the canonical layout. *)
Definition clock_face (hour minute : Z) : option (gset (Z * Z)) :=
  fst <$> active_char_positions 10 11
            (get_active_words hour minute HOUR_WORDS) canonical_positions.

End RendererVocabulary.

(** ** Further vocabulary: the verifier *)

Module VerifierVocabulary.
Import PyVal Verifier.

(** The letters an integer position entry points at. *)
Definition entry_text (lines : list string) (pos_info : pyval) : string :=
  match unpack3 pos_info with
  | Some (VInt r, VInt s, VInt e) =>
      match lines !! Z.to_nat r with
      | Some line => slice line s (e + 1)
      | None => EmptyString
      end
  | _ => EmptyString
  end.

(** The letters of a position list, put together in list order. *)
Definition spelled (lines : list string) (pos_list : list pyval) : string :=
  foldl (λ word pos_info, word +:+ entry_text lines pos_info) EmptyString
    pos_list.

Definition key_raises (grid : list pyval) (grid_rows grid_cols : Z)
    (key_to_word_map : gmap string string) (kp : string * pyval) : bool :=
  match check_key grid grid_rows grid_cols key_to_word_map kp.1 kp.2 with
  | KeyRaises => true
  | _ => false
  end.

End VerifierVocabulary.

(** ** Font search *)

Module FontSearch.

(** [font_paths_to_try], in the order [find_font] tries them. *)
Definition font_paths_to_try : list string :=
  [ "/usr/share/fonts/truetype/dejavu/DejaVuSans-Bold.ttf";
    "/usr/share/fonts/truetype/ubuntu/Ubuntu-B.ttf";
    "/usr/share/fonts/truetype/freefont/FreeSansBold.ttf";
    "/usr/share/fonts/truetype/dejavu/DejaVuSans.ttf";
    "/usr/share/fonts/truetype/ubuntu/Ubuntu-R.ttf";
    "/usr/share/fonts/truetype/freefont/FreeSans.ttf";
    "/Library/Fonts/Arial Bold.ttf";
    "/System/Library/Fonts/HelveticaNeue.ttc";
    "/Library/Fonts/Arial.ttf";
    "/System/Library/Fonts/Helvetica.ttc";
    "C:/Windows/Fonts/arialbd.ttf";
    "C:/Windows/Fonts/ariblk.ttf";
    "C:/Windows/Fonts/arial.ttf";
    "C:/Windows/Fonts/verdana.ttf";
    "DejaVuSans-Bold.ttf";
    "arialbd.ttf";
    "DejaVuSans.ttf";
    "arial.ttf" ].

(** The loop of [find_font] over a list of candidates: the value it
    leaves in [FONT_PATH].  [path_exists] stands for [os.path.exists] on
    the file system of the moment; [if path and ...] skips an empty
    path. *)
Fixpoint first_font (path_exists : string → bool) (paths : list string)
  : option string :=
  match paths with
  | [] => None
  | path :: rest =>
      if negb (String.eqb path EmptyString) && path_exists path
      then Some path
      else first_font path_exists rest
  end.

Definition find_font (path_exists : string → bool) : option string :=
  first_font path_exists font_paths_to_try.

End FontSearch.

(** ** The service loop *)

(** The body of [while True] in the main block, one iteration at a time.
    What the iteration reads from outside is an argument: the clock
    reading and whether the upload, if one is attempted, succeeds.
    [image_hash] stands for drawing the image for a key list and hashing
    its bytes ([None] when hashing raises); layout, display size and font
    are fixed while the process runs. *)
Module ServiceLoop.
Import Tables Resolver.

Record loop_state : Type := LoopState {
  last_minute_checked : Z;
  last_sent_image_hash : option Z
}.

(** A call of [send_image_to_server] with the image drawn for
    [active_keys]. *)
Inductive action : Type :=
  | Upload (active_keys : list string) (send_successful : bool).


Record tick : Type := Tick {
  now_hour : Z;
  now_minute : Z;
  send_ok : bool
}.

Definition iteration (image_hash : list string → option Z) (st : loop_state)
    (rd : tick) : loop_state * list action :=
  let current_minute := now_minute rd in
  if negb (current_minute =? last_minute_checked st) then
    let active_keys :=
      get_active_words (now_hour rd) (now_minute rd) HOUR_WORDS in
    let current_image_hash := image_hash active_keys in
    match current_image_hash with
    | Some h =>
        if negb (bool_decide (last_sent_image_hash st = Some h)) then
          let send_successful := send_ok rd in
          (LoopState current_minute
             (if send_successful then Some h else last_sent_image_hash st),
           [Upload active_keys send_successful])
        else (LoopState current_minute (last_sent_image_hash st), [])
    | None =>
        (LoopState current_minute (last_sent_image_hash st),
         [Upload active_keys (send_ok rd)])
    end
  else (st, []).

(** Successive iterations. *)
Fixpoint iterations (image_hash : list string → option Z) (st : loop_state)
    (rds : list tick) : loop_state * list action :=
  match rds with
  | [] => (st, [])
  | rd :: rest =>
      let '(st, done_now) := iteration image_hash st rd in
      let '(st, done_later) := iterations image_hash st rest in
      (st, done_now ++ done_later)
  end.

End ServiceLoop.

Import Tables Resolver PyVal Verifier Layout Vocabulary.

(** ** Sample runs *)

Example resolve_15_00 :
  get_active_words 15 0 HOUR_WORDS = ["IT"; "IS"; "THREE_H"; "OCLOCK"].
Proof. vm_compute. reflexivity. Qed.

Example resolve_15_15 :
  get_active_words 15 15 HOUR_WORDS =
  ["IT"; "IS"; "A"; "QUARTER"; "PAST"; "THREE_H"].
Proof. vm_compute. reflexivity. Qed.

Example resolve_15_30 :
  get_active_words 15 30 HOUR_WORDS = ["IT"; "IS"; "HALF"; "THREE_H"].
Proof. vm_compute. reflexivity. Qed.

Example resolve_15_35 :
  get_active_words 15 35 HOUR_WORDS =
  ["IT"; "IS"; "TWENTY"; "FIVE_M"; "MINUTES"; "TO"; "FOUR_H"].
Proof. vm_compute. reflexivity. Qed.

Example resolve_00_07 :
  get_active_words 0 7 HOUR_WORDS =
  ["IT"; "IS"; "FIVE_M"; "MINUTES"; "PAST"; "TWELVE_H"].
Proof. vm_compute. reflexivity. Qed.

Example verify_two_segments :
  verify_layout GRID_LAYOUT [("TENT", VList [span 0 6 8; span 2 0 0])]
    (<["TENT" := "TENT"]> ∅) =
  ([Verifying; GridDimensions 10 11; Successful], Returns true).
Proof. vm_compute. reflexivity. Qed.

Example verify_bare_tuple :
  verify_layout GRID_LAYOUT [("IT", span 0 0 1)] INTERNAL_KEY_TO_WORD =
  ([Verifying; GridDimensions 10 11; Successful], Returns true).
Proof. vm_compute. reflexivity. Qed.

Example verify_ragged_grid :
  verify_layout (VList [VStr "AB"; VStr "C"]) [] ∅ =
  ([Verifying; GridRowInvalid 1 1 2], Returns false).
Proof. vm_compute. reflexivity. Qed.

Example verify_row_without_len :
  verify_layout (VList [VStr "AB"; VNone]) [] ∅ = ([Verifying], RaisesTypeError).
Proof. vm_compute. reflexivity. Qed.

Example verify_string_coordinate :
  verify_layout GRID_LAYOUT [("IT", VList [VTuple [VInt 0; VStr "0"; VInt 1]])]
    INTERNAL_KEY_TO_WORD =
  ([Verifying; GridDimensions 10 11], RaisesTypeError).
Proof. vm_compute. reflexivity. Qed.

(** ** The resolver, bucket by bucket *)

Module ResolverFacts.

(** Decide every integer comparison in the goal, pruning by [lia]. *)
Ltac split_cmp :=
  repeat match goal with
  | |- context [ (?a <? ?b)%Z ] => destruct (Z.ltb_spec a b); try lia
  | |- context [ (?a <=? ?b)%Z ] => destruct (Z.leb_spec a b); try lia
  | |- context [ (?a =? ?b)%Z ] => destruct (Z.eqb_spec a b); try lia
  end.

Lemma get_active_words_table hour minute hw c n :
  hw !! display_hour_of hour = Some c →
  hw !! next_hour_of hour = Some n →
  0 ≤ minute ≤ 59 →
  get_active_words hour minute hw = phrase_table minute c n.
Proof.
  intros Hc Hn Hm.
  unfold get_active_words. fold (display_hour_of hour).
  fold (next_hour_of hour). rewrite Hc, Hn.
  unfold phrase_table, interval_keys, in_range, past_half.
  split_cmp; reflexivity.
Qed.

Lemma display_hour_range hour : 1 ≤ display_hour_of hour ≤ 12.
Proof.
  unfold display_hour_of. pose proof (Z.mod_pos_bound hour 12).
  destruct (Z.eqb_spec (hour `mod` 12) 0); lia.
Qed.

Lemma next_hour_range hour : 1 ≤ next_hour_of hour ≤ 12.
Proof.
  unfold next_hour_of.
  pose proof (Z.mod_pos_bound (display_hour_of hour) 12). lia.
Qed.

(** With the complete map both lookups succeed, for any integer hour. *)
Lemma canonical_hour_keys hour :
  ∃ c n, HOUR_WORDS !! display_hour_of hour = Some c ∧
         HOUR_WORDS !! next_hour_of hour = Some n ∧
         (c, n) ∈ hour_pairs.
Proof.
  pose proof (display_hour_range hour) as Hd. unfold next_hour_of.
  assert (Hcases : Exists (λ d, display_hour_of hour = d)
                     [1;2;3;4;5;6;7;8;9;10;11;12]).
  { rewrite !Exists_cons. lia. }
  rewrite !Exists_cons, Exists_nil in Hcases.
  destruct_or!; try done;
    match goal with H : display_hour_of hour = _ |- _ => rewrite H end;
    eexists _, _; (split; [vm_compute; reflexivity|]);
    (split; [vm_compute; reflexivity|]); compute_done.
Qed.

(** Split a goal about a canonical hour pair into its twelve instances. *)
Ltac each_hour Hp :=
  unfold hour_pairs in Hp;
  repeat (apply elem_of_cons in Hp as [Hp|Hp]; [injection Hp as -> ->|]);
  [..|by apply elem_of_nil in Hp].

Ltac absurd_member :=
  match goal with
  | H : ?x ∈ ?l |- _ => exfalso; revert H; change (x ∉ l); compute_done
  end.

Ltac word_goal :=
  repeat split; intros; first [lia | compute_done | absurd_member].

(** Reduce a statement about the canonical map to the phrase table. *)
Ltac by_table hour minute c n Hc Hn Hp :=
  destruct (canonical_hour_keys hour) as (c & n & Hc & Hn & Hp);
  rewrite (get_active_words_table hour minute HOUR_WORDS c n Hc Hn)
    by lia.

End ResolverFacts.

(** ** Properties of the time resolver *)

Module ResolverClaims.
Import ResolverFacts.

(** At minute 0 the result is exactly [IT, IS, hour key, OCLOCK]. *)
Lemma oclock_exact_at_zero hour :
  ∃ c, HOUR_WORDS !! display_hour_of hour = Some c ∧
       get_active_words hour 0 HOUR_WORDS = ["IT"; "IS"; c; "OCLOCK"].
Proof.
  by_table hour 0 c n Hc Hn Hp. exists c. done.
Qed.

(** At minutes 1-4 the test [0 < minute_precise < 35] of the hour-word
    block holds as well, so the current hour key is appended a second
    time after [OCLOCK]. *)
Lemma oclock_repeats_hour_key hour minute :
  1 ≤ minute < 5 →
  ∃ c, HOUR_WORDS !! display_hour_of hour = Some c ∧
       get_active_words hour minute HOUR_WORDS =
       ["IT"; "IS"; c; "OCLOCK"; c].
Proof.
  intros Hm. by_table hour minute c n Hc Hn Hp. exists c. split; [done|].
  unfold phrase_table. split_cmp. done.
Qed.

(** Outside minutes 1-4 no key occurs twice. *)
Lemma no_duplicate_outside_1_4 hour minute :
  0 ≤ minute ≤ 59 → ¬ (1 ≤ minute < 5) →
  NoDup (get_active_words hour minute HOUR_WORDS).
Proof.
  intros Hm Hex. by_table hour minute c n Hc Hn Hp. clear Hc Hn.
  unfold phrase_table. split_cmp; each_hour Hp; compute_done.
Qed.

(** C1: in the 0-4 bucket the result should be exactly
    [IT, IS, hourWords[displayHour], OCLOCK]; at 15:01 the code returns a
    fifth element, the hour key once more. *)
Theorem oclock_bucket_at_15_01 :
  get_active_words 15 1 HOUR_WORDS =
    ["IT"; "IS"; "THREE_H"; "OCLOCK"; "THREE_H"] ∧
  get_active_words 15 1 HOUR_WORDS ≠ ["IT"; "IS"; "THREE_H"; "OCLOCK"].
Proof. split; [vm_compute; reflexivity | vm_compute; discriminate]. Qed.

(** C2: the returned list should hold every key at most once; at 15:01
    the key [THREE_H] occurs twice. *)
Theorem duplicate_key_at_15_01 :
  ¬ NoDup (get_active_words 15 1 HOUR_WORDS).
Proof.
  compute_done.
Qed.

(** C3 as stated fails at 15:01: the minute lies in (0,35) and not in
    [30,35), yet [PAST] is not in the result. *)
Lemma past_absent_at_15_01 :
  0 ≤ 15 ≤ 23 ∧ 0 < 1 < 35 ∧ ¬ (30 ≤ 1 < 35) ∧
  "PAST" ∉ get_active_words 15 1 HOUR_WORDS.
Proof. repeat split; try lia. compute_done. Qed.

(** C3 (amended): for 0 < minute < 35 outside [30,35) the result holds the
    current hour's key and not the next hour's; [PAST] is in it exactly
    from minute 5 on. *)
Theorem past_and_current_hour hour minute :
  0 ≤ hour ≤ 23 → 0 < minute < 35 → ¬ (30 ≤ minute < 35) →
  ∃ c n, HOUR_WORDS !! display_hour_of hour = Some c ∧
         HOUR_WORDS !! next_hour_of hour = Some n ∧
         c ∈ get_active_words hour minute HOUR_WORDS ∧
         (n ∉ get_active_words hour minute HOUR_WORDS) ∧
         ("PAST" ∈ get_active_words hour minute HOUR_WORDS ↔ 5 ≤ minute).
Proof.
  intros _ Hm Hhalf. by_table hour minute c n Hc Hn Hp.
  exists c, n. split; [done|]. split; [done|]. clear Hc Hn.
  unfold phrase_table. split_cmp; each_hour Hp; word_goal.
Qed.

Lemma past_and_current_hour_witness :
  ∃ c n, HOUR_WORDS !! display_hour_of 15 = Some c ∧
         HOUR_WORDS !! next_hour_of 15 = Some n ∧
         c ∈ get_active_words 15 7 HOUR_WORDS ∧
         (n ∉ get_active_words 15 7 HOUR_WORDS) ∧
         ("PAST" ∈ get_active_words 15 7 HOUR_WORDS ↔ 5 ≤ 7).
Proof. apply (past_and_current_hour 15 7); lia. Defined.

(** C4: from minute 35 on the result holds [TO] and the next hour's key
    instead of the current one; before 35 it holds neither [TO] nor the
    next hour's key, and [PAST] never occurs from 35 on.  So 35 is the one
    minute at which hour reference and direction change. *)
Theorem to_and_next_hour hour minute :
  0 ≤ hour ≤ 23 → 0 ≤ minute ≤ 59 →
  ∃ c n, HOUR_WORDS !! display_hour_of hour = Some c ∧
         HOUR_WORDS !! next_hour_of hour = Some n ∧
         next_hour_of hour = display_hour_of hour `mod` 12 + 1 ∧
         c ≠ n ∧
         ("TO" ∈ get_active_words hour minute HOUR_WORDS ↔ 35 ≤ minute) ∧
         (n ∈ get_active_words hour minute HOUR_WORDS ↔ 35 ≤ minute) ∧
         (c ∈ get_active_words hour minute HOUR_WORDS ↔ minute < 35) ∧
         ("PAST" ∈ get_active_words hour minute HOUR_WORDS → minute < 35).
Proof.
  intros _ Hm. by_table hour minute c n Hc Hn Hp.
  exists c, n. split; [done|]. split; [done|]. split; [done|]. clear Hc Hn.
  unfold phrase_table. split_cmp; each_hour Hp; word_goal.
Qed.

Lemma to_and_next_hour_witness :
  ∃ c n, HOUR_WORDS !! display_hour_of 15 = Some c ∧
         HOUR_WORDS !! next_hour_of 15 = Some n ∧
         next_hour_of 15 = display_hour_of 15 `mod` 12 + 1 ∧
         c ≠ n ∧
         ("TO" ∈ get_active_words 15 35 HOUR_WORDS ↔ 35 ≤ 35) ∧
         (n ∈ get_active_words 15 35 HOUR_WORDS ↔ 35 ≤ 35) ∧
         (c ∈ get_active_words 15 35 HOUR_WORDS ↔ 35 < 35) ∧
         ("PAST" ∈ get_active_words 15 35 HOUR_WORDS → 35 < 35).
Proof. apply (to_and_next_hour 15 35); lia. Defined.

(** C8: in the buckets 0-4 and 30-34 the result holds none of [MINUTES],
    [PAST], [TO]. *)
Theorem clean_buckets hour minute :
  0 ≤ hour ≤ 23 → 0 ≤ minute < 5 ∨ 30 ≤ minute < 35 →
  ("MINUTES" ∉ get_active_words hour minute HOUR_WORDS) ∧
  ("PAST" ∉ get_active_words hour minute HOUR_WORDS) ∧
  ("TO" ∉ get_active_words hour minute HOUR_WORDS).
Proof.
  intros _ Hm. by_table hour minute c n Hc Hn Hp. clear Hc Hn.
  unfold phrase_table. split_cmp; each_hour Hp; word_goal.
Qed.

Lemma clean_buckets_witness :
  ("MINUTES" ∉ get_active_words 15 30 HOUR_WORDS) ∧
  ("PAST" ∉ get_active_words 15 30 HOUR_WORDS) ∧
  ("TO" ∉ get_active_words 15 30 HOUR_WORDS).
Proof. apply (clean_buckets 15 30); lia. Defined.

(** C9: [MINUTES] is in the result exactly for minutes in
    [5,15), [20,30), [35,45) and [50,60). *)
Theorem minutes_word_iff hour minute :
  0 ≤ hour ≤ 23 → 0 ≤ minute ≤ 59 →
  "MINUTES" ∈ get_active_words hour minute HOUR_WORDS ↔
  (5 ≤ minute < 15 ∨ 20 ≤ minute < 30 ∨ 35 ≤ minute < 45 ∨ 50 ≤ minute < 60).
Proof.
  intros _ Hm. by_table hour minute c n Hc Hn Hp. clear Hc Hn.
  unfold phrase_table. split_cmp; each_hour Hp; word_goal.
Qed.

Lemma minutes_word_iff_witness :
  "MINUTES" ∈ get_active_words 15 35 HOUR_WORDS ↔
  (5 ≤ 35 < 15 ∨ 20 ≤ 35 < 30 ∨ 35 ≤ 35 < 45 ∨ 50 ≤ 35 < 60).
Proof. apply (minutes_word_iff 15 35); lia. Defined.

End ResolverClaims.

(** ** The verifier, loop by loop *)

Module VerifierFacts.

Lemma lookup_grid_line (lines : list string) (r : Z) :
  0 ≤ r < Z.of_nat (length lines) →
  ∃ line, lines !! Z.to_nat r = Some line ∧
          (VStr <$> lines) !! Z.to_nat r = Some (VStr line).
Proof.
  intros Hr. destruct (lookup_lt_is_Some_2 lines (Z.to_nat r)) as [line Hl].
  { lia. }
  exists line. split; [done|]. by rewrite list_lookup_fmap, Hl.
Qed.

Lemma check_rows_rect (ls : list string) (r cols : Z) :
  Forall (λ line, Z.of_nat (String.length line) = cols) ls →
  check_rows (VStr <$> ls) r cols = None.
Proof.
  intros Hall. revert r. induction Hall as [|line ls Hlen _ IH]; intros r.
  - reflexivity.
  - cbn [fmap list_fmap check_rows]. rewrite Hlen, Z.eqb_refl. cbn. apply IH.
Qed.

(** What the row loop reports when it does not run to the end. *)
Lemma check_rows_stops rows r cols log out :
  check_rows rows r cols = Some (log, out) →
  (log = [] ∧ out = RaisesTypeError) ∨
  (∃ r' n, log = [GridRowInvalid r' n cols] ∧ out = Returns false).
Proof.
  revert r. induction rows as [|row rows IH]; intros r; cbn [check_rows].
  - discriminate.
  - destruct row as [| z | s | items | items]; cbn;
      try (intros [= <- <-]; eauto; fail).
    destruct (Z.of_nat (String.length s) =? cols); cbn.
    + apply IH.
    + intros [= <- <-]. eauto.
Qed.

(** A rectangular grid passes the structure check and the word-map loop
    runs on it. *)
Lemma verify_layout_rect lines cols word_map kw :
  rectangular lines cols →
  verify_layout (grid_of lines) word_map kw =
  (Verifying :: GridDimensions (Z.of_nat (length lines)) cols ::
     (check_items (VStr <$> lines) (Z.of_nat (length lines)) cols kw
        word_map ∅ true).1,
   (check_items (VStr <$> lines) (Z.of_nat (length lines)) cols kw
        word_map ∅ true).2).
Proof.
  intros (Hne & Hpos & Hall). destruct lines as [|first rest]; [done|].
  assert (Hfirst : Z.of_nat (String.length first) = cols)
    by (by inversion Hall).
  pose proof (check_rows_rect (first :: rest) 0 cols Hall) as Hrows.
  unfold grid_of, verify_layout.
  destruct first as [|a first]; [cbn in Hfirst; lia|].
  cbn [fmap list_fmap] in *. cbn [truthy String.eqb negb].
  rewrite Hfirst, Hrows. cbn [length]. rewrite length_fmap.
  by destruct (check_items _ _ _ _ _ _ _).
Qed.

Lemma coords_ok_ints (grid_rows grid_cols r s e : Z) :
  coords_ok grid_rows grid_cols (VInt r) (VInt s) (VInt e) =
  Some (in_bounds_entry grid_rows grid_cols (VTuple [VInt r; VInt s; VInt e])).
Proof.
  unfold coords_ok, in_bounds_entry, index_in, py_le, and_then. cbn.
  destruct (0 <=? r), (r <? grid_rows), (0 <=? s), (s <? grid_cols),
    (0 <=? e), (e <? grid_cols); reflexivity.
Qed.

Lemma in_bounds_entry_spec (grid_rows grid_cols : Z) (v : pyval) (r s e : Z) :
  unpack3 v = Some (VInt r, VInt s, VInt e) →
  in_bounds_entry grid_rows grid_cols v = true ↔
  0 ≤ r < grid_rows ∧ 0 ≤ s < grid_cols ∧ 0 ≤ e < grid_cols ∧ s ≤ e.
Proof.
  intros Hu. unfold in_bounds_entry. rewrite Hu.
  rewrite !andb_true_iff, !Z.leb_le, !Z.ltb_lt. lia.
Qed.

Section Positions.
Context (grid : list pyval) (grid_rows grid_cols : Z).
Context (Hrows : grid_rows = Z.of_nat (length grid)).
Context (key expected_word : string).

(** The bounds test only succeeds on a row index inside the grid, so the
    [IndexError] handler is never entered: a defect is an out-of-bounds or
    a malformed-position line about this very entry. *)
Lemma check_position_defect pos_info m :
  check_position grid grid_rows grid_cols key expected_word pos_info = Defect m →
  m = OutOfBounds key pos_info expected_word grid_rows grid_cols ∨
  m = MalformedPosition key pos_info expected_word.
Proof.
  unfold check_position.
  destruct (unpack3 pos_info) as [[[row start_col] end_col]|]; [|naive_solver].
  destruct (coords_ok _ _ _ _ _) as [[]|] eqn:Hok; [|naive_solver|done].
  destruct row as [|r| | |]; try done.
  destruct start_col as [|s| | |]; try done.
  destruct end_col as [|e| | |]; try done.
  rewrite coords_ok_ints in Hok. injection Hok as Hok.
  pose proof (proj1 (in_bounds_entry_spec _ _ (VTuple [VInt r; VInt s; VInt e])
                       r s e eq_refl) Hok)
    as (Hrow & _).
  destruct (lookup_lt_is_Some_2 grid (Z.to_nat r)) as [v ->]; [lia|].
  by destruct v.
Qed.

Lemma check_position_out_of_bounds pos_info r s e :
  unpack3 pos_info = Some (VInt r, VInt s, VInt e) →
  ¬ (0 ≤ r < grid_rows ∧ 0 ≤ s < grid_cols ∧ 0 ≤ e < grid_cols ∧ s ≤ e) →
  check_position grid grid_rows grid_cols key expected_word pos_info =
  Defect (OutOfBounds key pos_info expected_word grid_rows grid_cols).
Proof.
  intros Hu Hout. unfold check_position. rewrite Hu, coords_ok_ints.
  destruct (in_bounds_entry _ _ _) eqn:Hin; [|done].
  by pose proof (proj1 (in_bounds_entry_spec _ _ (VTuple [VInt r; VInt s; VInt e])
                       r s e eq_refl) Hin).
Qed.

Lemma check_position_malformed pos_info :
  unpack3 pos_info = None →
  check_position grid grid_rows grid_cols key expected_word pos_info =
  Defect (MalformedPosition key pos_info expected_word).
Proof. intros Hu. unfold check_position. by rewrite Hu. Qed.

End Positions.


Section Scan.
Context (grid : list pyval) (grid_rows grid_cols : Z).
Context (Hrows : grid_rows = Z.of_nat (length grid)).
Context (kw : gmap string string).

(** A [break] out of the position loop always comes with an out-of-bounds
    or malformed-position line. *)
Lemma scan_aborted_kind key w pos_list acc m :
  scan_positions grid grid_rows grid_cols key w pos_list acc = Aborted m →
  is_out_of_bounds m || is_malformed_position m = true.
Proof.
  revert acc. induction pos_list as [|p ps IH]; intros acc; cbn; [done|].
  destruct (check_position _ _ _ _ _ p) eqn:Hp; [apply IH| |done].
  intros [= ->].
  by destruct (check_position_defect grid grid_rows grid_cols Hrows _ _ _ _ Hp)
    as [-> | ->].
Qed.

Lemma check_key_pass key positions printed :
  check_key grid grid_rows grid_cols kw key positions = Pass printed →
  Forall (λ m, fatal m = false) printed.
Proof.
  unfold check_key.
  destruct (negb (truthy positions)), (kw !! key) as [w|];
    try (intros [= <-]; repeat constructor; fail).
  destruct (scan_positions _ _ _ _ _ _ _); try done.
  destruct (negb _); [done|]. intros [= <-]. constructor.
Qed.

Lemma check_key_fail key positions printed :
  check_key grid grid_rows grid_cols kw key positions = Fail printed →
  ∃ m, printed = [m] ∧ fatal m = true.
Proof.
  unfold check_key.
  destruct (negb (truthy positions)), (kw !! key) as [w|]; try done.
  destruct (scan_positions _ _ _ _ _ _ _) as [word|m|] eqn:Hscan; try done.
  - destruct (negb _); [|done]. intros [= <-]. eauto.
  - intros [= <-]. exists m. split; [done|].
    apply scan_aborted_kind in Hscan. by destruct m.
Qed.

(** The flag returned by the word-map loop against the printed lines. *)
Lemma check_items_verdict items checked all_ok b :
  (check_items grid grid_rows grid_cols kw items checked all_ok).2 = Returns b →
  b = true ↔
  all_ok = true ∧
  Forall (λ m, fatal m = false)
    (check_items grid grid_rows grid_cols kw items checked all_ok).1.
Proof.
  revert checked all_ok.
  induction items as [|[key positions] items IH]; intros checked all_ok.
  - cbn. intros [= <-]. split; [|tauto].
    intros ->. split; [done|]. by repeat constructor.
  - cbn [check_items]. destruct (decide (key ∈ checked)); [apply IH|].
    destruct (check_key _ _ _ _ key positions) as [printed|printed|] eqn:Hkey.
    + specialize (IH ({[key]} ∪ checked) all_ok).
      destruct (check_items _ _ _ _ items _ _) as [log out]. cbn in *.
      intros Hout. rewrite (IH Hout), Forall_app.
      apply check_key_pass in Hkey. tauto.
    + specialize (IH ({[key]} ∪ checked) false).
      destruct (check_items _ _ _ _ items _ _) as [log out]. cbn in *.
      intros Hout. rewrite (IH Hout), Forall_app.
      apply check_key_fail in Hkey as (m & -> & Hm).
      rewrite Forall_singleton, Hm. split; [intros [[=] _]|intros (_ & [=] & _)].
    + done.
Qed.

End Scan.

Section Loop.
Context (grid : list pyval) (grid_rows grid_cols : Z).
Context (kw : gmap string string).

(** A key missing from the verification map is skipped: at most the
    warning is printed and [all_ok] is left alone. *)
Lemma check_key_unverifiable key positions :
  kw !! key = None →
  check_key grid grid_rows grid_cols kw key positions =
  Pass (if truthy positions then [Unverifiable key] else []).
Proof. intros Hk. unfold check_key. rewrite Hk. by destruct (truthy _). Qed.

(** The loop state [checked_keys] only matters on the keys still to come. *)
Lemma check_items_checked_ext items checked checked' all_ok :
  (∀ key, key ∈ items.*1 → key ∈ checked ↔ key ∈ checked') →
  check_items grid grid_rows grid_cols kw items checked all_ok =
  check_items grid grid_rows grid_cols kw items checked' all_ok.
Proof.
  revert checked checked' all_ok.
  induction items as [|[key positions] items IH]; intros checked checked' all_ok
    Hext; [done|].
  cbn [check_items].
  assert (Hkey : key ∈ checked ↔ key ∈ checked') by (apply Hext; set_solver).
  assert (Hrest : ∀ S S', (∀ k, k ∈ items.*1 → k ∈ S ↔ k ∈ S') →
            ∀ ok, check_items grid grid_rows grid_cols kw items S ok =
                  check_items grid grid_rows grid_cols kw items S' ok)
    by (intros; by apply IH).
  destruct (decide (key ∈ checked)), (decide (key ∈ checked')); try tauto.
  - apply Hrest. intros k Hk. apply Hext. set_solver.
  - assert (Hext' : ∀ k, k ∈ items.*1 →
              k ∈ ({[key]} ∪ checked : gset string) ↔ k ∈ {[key]} ∪ checked').
    { intros k Hk. rewrite !elem_of_union. rewrite (Hext k); set_solver. }
    destruct (check_key _ _ _ _ key positions); [| |done];
      by rewrite (Hrest _ _ Hext').
Qed.

(** Dropping a key that the verification map does not know changes neither
    the outcome nor any printed line except that key's own warning. *)
Lemma check_items_skip_unverifiable wm1 wm2 key positions checked all_ok :
  kw !! key = None → key ∉ wm2.*1 →
  let with_key :=
    check_items grid grid_rows grid_cols kw (wm1 ++ (key, positions) :: wm2)
      checked all_ok in
  let without :=
    check_items grid grid_rows grid_cols kw (wm1 ++ wm2) checked all_ok in
  with_key.2 = without.2 ∧
  ∃ before after warning,
    without.1 = before ++ after ∧
    with_key.1 = before ++ warning ++ after ∧
    (warning = [] ∨ warning = [Unverifiable key]).
Proof.
  intros Hk Hfresh. revert checked all_ok.
  induction wm1 as [|[k1 p1] wm1 IH]; intros checked all_ok; cbn zeta.
  - cbn [app check_items]. destruct (decide (key ∈ checked)).
    + split; [done|]. exists [], (check_items grid grid_rows grid_cols kw wm2
        checked all_ok).1, []. auto.
    + rewrite check_key_unverifiable by done.
      rewrite (check_items_checked_ext wm2 ({[key]} ∪ checked) checked)
        by set_solver.
      destruct (check_items _ _ _ _ wm2 _ _) as [log out]. cbn.
      split; [done|]. exists [], log. eexists. split; [done|].
      split; [done|]. destruct (truthy positions); auto.
  - cbn [app check_items]. destruct (decide (k1 ∈ checked)); [apply IH|].
    destruct (check_key _ _ _ _ k1 p1) as [printed|printed|].
    + specialize (IH ({[k1]} ∪ checked) all_ok). cbn zeta in IH.
      destruct (check_items _ _ _ _ (wm1 ++ _ :: _) _ _) as [log1 out1].
      destruct (check_items _ _ _ _ (wm1 ++ wm2) _ _) as [log2 out2].
      cbn in *. destruct IH as (-> & before & after & warning & -> & -> & Hw).
      split; [done|]. exists (printed ++ before), after, warning.
      by rewrite <- !app_assoc.
    + specialize (IH ({[k1]} ∪ checked) false). cbn zeta in IH.
      destruct (check_items _ _ _ _ (wm1 ++ _ :: _) _ _) as [log1 out1].
      destruct (check_items _ _ _ _ (wm1 ++ wm2) _ _) as [log2 out2].
      cbn in *. destruct IH as (-> & before & after & warning & -> & -> & Hw).
      split; [done|]. exists (printed ++ before), after, warning.
      by rewrite <- !app_assoc.
    + split; [done|]. exists [], [], []. auto.
Qed.

End Loop.

Section Report.
Context (grid : list pyval) (grid_rows grid_cols : Z).
Context (kw : gmap string string).

(** When no key raises and no key repeats, the loop prints every key's
    lines in order and returns the conjunction of the keys' results. *)
Lemma check_items_report items checked all_ok :
  NoDup items.*1 →
  (∀ key, key ∈ items.*1 → key ∉ checked) →
  Forall (λ kp, check_key grid grid_rows grid_cols kw kp.1 kp.2 ≠ KeyRaises)
    items →
  let ok := all_ok && forallb (key_passes grid grid_rows grid_cols kw) items in
  check_items grid grid_rows grid_cols kw items checked all_ok =
  (concat (key_report grid grid_rows grid_cols kw <$> items) ++
     [if ok then Successful else Failed],
   Returns ok).
Proof.
  revert checked all_ok.
  induction items as [|[key positions] items IH]; intros checked all_ok
    Hnodup Hfresh Hraise; cbn zeta.
  - cbn. by rewrite andb_true_r.
  - cbn [check_items]. rewrite fmap_cons, NoDup_cons in Hnodup.
    destruct Hnodup as [Hkey Hnodup]. apply Forall_cons in Hraise as [Hk Hraise].
    destruct (decide (key ∈ checked)) as [Hin|_].
    { exfalso. apply (Hfresh key); [set_solver | done]. }
    assert (Hfresh' : ∀ k, k ∈ items.*1 → k ∉ ({[key]} ∪ checked : gset string)).
    { intros k Hkin. specialize (Hfresh k). set_solver. }
    cbn [fmap list_fmap concat forallb]. cbn [fst snd] in Hk.
    destruct (check_key _ _ _ _ key positions) as [printed|printed|] eqn:Hck;
      [| |done].
    + replace (key_report grid grid_rows grid_cols kw (key, positions))
        with printed by (unfold key_report; cbn; by rewrite Hck).
      replace (key_passes grid grid_rows grid_cols kw (key, positions))
        with true by (unfold key_passes; cbn; by rewrite Hck).
      rewrite (IH _ all_ok Hnodup Hfresh' Hraise). cbn zeta. cbn [andb].
      by rewrite <- app_assoc.
    + replace (key_report grid grid_rows grid_cols kw (key, positions))
        with printed by (unfold key_report; cbn; by rewrite Hck).
      replace (key_passes grid grid_rows grid_cols kw (key, positions))
        with false by (unfold key_passes; cbn; by rewrite Hck).
      rewrite (IH _ false Hnodup Hfresh' Hraise). cbn zeta. cbn [andb].
      rewrite andb_false_r. by rewrite <- app_assoc.
Qed.

End Report.

Section Rectangular.
Context (lines : list string) (cols : Z).
Context (kw : gmap string string).

Local Abbreviation rows := (Z.of_nat (length lines)).
Local Abbreviation grid := (VStr <$> lines).

Lemma in_bounds_entry_unpack grid_rows pos_info r s e :
  unpack3 pos_info = Some (VInt r, VInt s, VInt e) →
  in_bounds_entry grid_rows cols pos_info =
  in_bounds_entry grid_rows cols (VTuple [VInt r; VInt s; VInt e]).
Proof. intros Hu. unfold in_bounds_entry. by rewrite Hu. Qed.

(** An in-bounds integer triple yields the slice of its row. *)
Lemma check_position_segment key w pos_info :
  in_bounds_entry rows cols pos_info = true →
  ∃ seg, check_position grid rows cols key w pos_info = Segment seg.
Proof.
  intros Hin. unfold check_position.
  destruct (unpack3 pos_info) as [[[a b] c]|] eqn:Hu;
    [|by unfold in_bounds_entry in Hin; rewrite Hu in Hin].
  destruct a as [|r|?|?|?];
    try (by unfold in_bounds_entry in Hin; rewrite Hu in Hin).
  destruct b as [|s|?|?|?];
    try (by unfold in_bounds_entry in Hin; rewrite Hu in Hin).
  destruct c as [|e|?|?|?];
    try (by unfold in_bounds_entry in Hin; rewrite Hu in Hin).
  pose proof (proj1 (in_bounds_entry_spec _ _ _ r s e Hu) Hin) as (Hrow & _).
  rewrite coords_ok_ints, <- (in_bounds_entry_unpack _ _ _ _ _ Hu), Hin.
  destruct (lookup_grid_line lines r Hrow) as (line & _ & ->). eauto.
Qed.

(** On integer coordinates the position test never raises. *)
Lemma check_position_typed key w pos_info :
  typed_entry pos_info = true →
  check_position grid rows cols key w pos_info ≠ StepRaises.
Proof.
  intros Hty. unfold check_position. unfold typed_entry in Hty.
  destruct (unpack3 pos_info) as [[[a b] c]|] eqn:Hu; [|done].
  destruct a as [|r|?|?|?]; try done.
  destruct b as [|s|?|?|?]; try done.
  destruct c as [|e|?|?|?]; try done.
  rewrite coords_ok_ints.
  destruct (in_bounds_entry _ _ _) eqn:Hin; [|done].
  pose proof (proj1 (in_bounds_entry_spec _ _ (VTuple [VInt r; VInt s; VInt e])
                       r s e eq_refl) Hin)
    as (Hrow & _).
  by destruct (lookup_grid_line lines r Hrow) as (line & _ & ->).
Qed.

Lemma scan_positions_typed key w pos_list acc :
  forallb typed_entry pos_list = true →
  scan_positions grid rows cols key w pos_list acc ≠ ScanRaises.
Proof.
  revert acc. induction pos_list as [|p ps IH]; intros acc; cbn; [done|].
  intros (Hp & Hps)%andb_true_iff.
  pose proof (check_position_typed key w p Hp).
  destruct (check_position _ _ _ _ _ p); [by apply IH|done|done].
Qed.

(** In-bounds entries are walked through; the loop goes on behind them
    with a longer [extracted_word]. *)
Lemma scan_positions_prefix key w pre acc :
  forallb (in_bounds_entry rows cols) pre = true →
  ∃ acc', ∀ rest,
    scan_positions grid rows cols key w (pre ++ rest) acc =
    scan_positions grid rows cols key w rest acc'.
Proof.
  revert acc. induction pre as [|p pre IH]; intros acc; cbn.
  - intros _. by exists acc.
  - intros (Hp & Hpre)%andb_true_iff.
    destruct (check_position_segment key w p Hp) as [seg ->].
    apply IH, Hpre.
Qed.

Lemma check_key_typed key positions :
  forallb typed_entry (pos_list_of positions) = true →
  check_key grid rows cols kw key positions ≠ KeyRaises.
Proof.
  intros Hty. unfold check_key.
  destruct (negb (truthy positions)), (kw !! key) as [w|]; try done.
  pose proof (scan_positions_typed key w _ EmptyString Hty).
  destruct (scan_positions _ _ _ _ _ _ _); [|done|done].
  by destruct (negb _).
Qed.

Lemma typed_map_no_raise word_map :
  typed_map word_map = true →
  Forall (λ kp, check_key grid rows cols kw kp.1 kp.2 ≠ KeyRaises) word_map.
Proof.
  unfold typed_map. rewrite forallb_forall, Forall_forall.
  intros Hty kp Hkp. apply check_key_typed, Hty. by apply list_elem_of_In.
Qed.

(** A position list that stops at a defective entry behind in-bounds
    ones: the key fails with the one line of that entry, whatever follows
    it in the list. *)
Lemma check_key_first_defect key w positions pre bad post m :
  kw !! key = Some w →
  truthy positions = true →
  pos_list_of positions = pre ++ bad :: post →
  forallb (in_bounds_entry rows cols) pre = true →
  check_position grid rows cols key w bad = Defect m →
  check_key grid rows cols kw key positions = Fail [m].
Proof.
  intros Hk Htruthy Hlist Hpre Hbad. unfold check_key.
  rewrite Htruthy, Hk, Hlist. cbn [negb].
  destruct (scan_positions_prefix key w pre EmptyString Hpre) as [acc ->].
  cbn [scan_positions]. by rewrite Hbad.
Qed.


Lemma truthy_of_pos_list positions pre bad post :
  pos_list_of positions = pre ++ bad :: post →
  truthy bad = true → truthy positions = true.
Proof.
  intros Hlist Hbad.
  destruct positions as [|z|t|items|items];
    destruct pre as [|? [|? ?]]; cbn in Hlist; by simplify_eq.
Qed.

Lemma truthy_unpack3 v abc : unpack3 v = Some abc → truthy v = true.
Proof. by destruct v as [| | |[|? ?]|[|? ?]]. Qed.

(** A verifiable key whose position list runs into a defective entry
    behind in-bounds ones, in a map where nothing else raises: the run
    prints every other key's lines, this key's one error line, and
    returns [False]. *)
Lemma verify_layout_first_defect wm1 wm2 key w positions pre bad post m :
  rectangular lines cols →
  NoDup (wm1 ++ (key, positions) :: wm2).*1 →
  typed_map (wm1 ++ wm2) = true →
  kw !! key = Some w →
  truthy positions = true →
  pos_list_of positions = pre ++ bad :: post →
  forallb (in_bounds_entry rows cols) pre = true →
  check_position grid rows cols key w bad = Defect m →
  verify_layout (grid_of lines) (wm1 ++ (key, positions) :: wm2) kw =
  (Verifying :: GridDimensions rows cols ::
     concat (key_report grid rows cols kw <$> wm1) ++ [m] ++
     concat (key_report grid rows cols kw <$> wm2) ++ [Failed],
   Returns false).
Proof.
  intros Hrect Hnodup Htyped Hk Htruthy Hlist Hpre Hbad.
  pose proof (check_key_first_defect key w positions pre bad post m
                Hk Htruthy Hlist Hpre Hbad) as Hfail.
  apply typed_map_no_raise, Forall_app in Htyped as [Hty1 Hty2].
  rewrite (verify_layout_rect lines cols _ kw Hrect).
  rewrite check_items_report; [|done|set_solver|].
  - cbn zeta. cbn [fst snd andb].
    rewrite fmap_app, fmap_cons, concat_app, concat_cons, forallb_app.
    cbn [forallb].
    replace (key_report grid rows cols kw (key, positions)) with [m]
      by (unfold key_report; cbn; by rewrite Hfail).
    replace (key_passes grid rows cols kw (key, positions)) with false
      by (unfold key_passes; cbn; by rewrite Hfail).
    rewrite andb_false_l, andb_false_r. by rewrite <- !app_assoc.
  - apply Forall_app. split; [done|]. apply Forall_cons. split; [|done].
    cbn [fst snd]. by rewrite Hfail.
Qed.

End Rectangular.

(** The structure check either ends the call (with a grid error line, or
    by raising) or hands the rows over to the word-map loop. *)
Lemma verify_layout_cases grid kw :
  (∃ log out,
     (∀ word_map, verify_layout grid word_map kw = (log, out)) ∧
     (out = RaisesTypeError ∨
      out = Returns false ∧ Exists (λ m, is_malformed_grid m = true) log)) ∨
  (∃ rows cols,
     ∀ word_map,
       verify_layout grid word_map kw =
       (Verifying :: GridDimensions (Z.of_nat (length rows)) cols ::
          (check_items rows (Z.of_nat (length rows)) cols kw word_map ∅ true).1,
        (check_items rows (Z.of_nat (length rows)) cols kw word_map ∅ true).2)).
Proof.
  assert (Hinvalid : ∃ log out,
     (∀ word_map : list (string * pyval),
        ([Verifying; GridInvalid], Returns false) = (log, out)) ∧
     (out = RaisesTypeError ∨
      out = Returns false ∧ Exists (λ m, is_malformed_grid m = true) log)).
  { eexists _, _. split; [done|]. right. split; [done|].
    apply Exists_cons_tl, Exists_cons_hd. done. }
  destruct grid as [|z|s|items|items]; try (by left).
  destruct items as [|[|z|first|?|?] rest]; try (by left).
  unfold verify_layout. destruct (negb (truthy (VStr first))); [by left|].
  destruct (check_rows _ 0 _) as [[log out]|] eqn:Hrows.
  - left. exists (Verifying :: log), out. split; [done|].
    apply check_rows_stops in Hrows as [[-> ->]|(r & n & -> & ->)]; [by left|].
    right. split; [done|]. apply Exists_cons_tl, Exists_cons_hd. done.
  - right. exists (VStr first :: rest), (Z.of_nat (String.length first)).
    intros word_map. by destruct (check_items _ _ _ _ _ _ _).
Qed.

(** [verify_layout] returns [True] exactly when it returns at all and none
    of the printed lines is a grid, bounds, mismatch or malformed-position
    error. *)
Lemma verify_layout_true_iff grid word_map kw :
  (verify_layout grid word_map kw).2 = Returns true ↔
  (verify_layout grid word_map kw).2 ≠ RaisesTypeError ∧
  Forall (λ m, taxonomy_fatal m = false ∧ is_malformed_position m = false)
    (verify_layout grid word_map kw).1.
Proof.
  destruct (verify_layout_cases grid kw)
    as [(log & out & Heq & Hout)|(rows & cols & Heq)]; rewrite Heq; cbn [fst snd].
  - destruct Hout as [->|[-> Hbad]]; [naive_solver|].
    split; [done|]. intros [_ Hall]. exfalso.
    apply Exists_exists in Hbad as (m & Hm & Hgrid).
    rewrite Forall_forall in Hall. destruct (Hall m Hm) as [Htax _].
    unfold taxonomy_fatal in Htax. by rewrite Hgrid in Htax.
  - pose proof (check_items_verdict rows (Z.of_nat (length rows)) cols eq_refl
                  kw word_map ∅ true) as Hverdict.
    destruct (check_items _ _ _ _ _ _ _) as [log out]. cbn [fst snd] in *.
    assert (Hfatal : ∀ l, Forall (λ m, fatal m = false) l ↔
              Forall (λ m, taxonomy_fatal m = false ∧
                           is_malformed_position m = false) l).
    { intros l. apply Forall_proper; [|done]. intros m. unfold fatal.
      apply orb_false_iff. }
    rewrite !Forall_cons, <- Hfatal. destruct out as [b|].
    + specialize (Hverdict b eq_refl). split.
      * intros [= ->]. naive_solver.
      * intros (_ & _ & _ & Hall). f_equal. apply Hverdict. by split.
    + naive_solver.
Qed.

End VerifierFacts.

(** ** Properties of the layout verifier *)

Module VerifierClaims.
Import VerifierFacts.

(** C5 as stated fails: a two-item position tuple makes [verify_layout]
    return [False] although no grid, bounds or mismatch error is printed. *)
Lemma false_without_taxonomy_defect :
  let run :=
    verify_layout GRID_LAYOUT [("IT", VList [VTuple [VInt 0; VInt 0]])]
      INTERNAL_KEY_TO_WORD in
  run.2 = Returns false ∧ Forall (λ m, taxonomy_fatal m = false) run.1.
Proof. vm_compute. split; [done|]. repeat constructor. Qed.

(** C5 (amended): [verify_layout] returns [True] exactly when it returns
    and prints no grid, bounds, mismatch or malformed-position error; a key
    of the position map that the expected-word map lacks is skipped with
    at most a warning, and leaving it out changes neither the outcome nor
    any other line. *)
Theorem verdict_and_unverifiable_keys grid kw word_map wm1 wm2 key positions :
  kw !! key = None → key ∉ wm2.*1 →
  ((verify_layout grid word_map kw).2 = Returns true ↔
   (verify_layout grid word_map kw).2 ≠ RaisesTypeError ∧
   Forall (λ m, taxonomy_fatal m = false ∧ is_malformed_position m = false)
     (verify_layout grid word_map kw).1) ∧
  (verify_layout grid (wm1 ++ (key, positions) :: wm2) kw).2 =
  (verify_layout grid (wm1 ++ wm2) kw).2 ∧
  ∃ before after warning,
    (verify_layout grid (wm1 ++ wm2) kw).1 = before ++ after ∧
    (verify_layout grid (wm1 ++ (key, positions) :: wm2) kw).1 =
      before ++ warning ++ after ∧
    (warning = [] ∨ warning = [Unverifiable key]).
Proof.
  intros Hkey Hfresh. split; [apply verify_layout_true_iff|].
  destruct (verify_layout_cases grid kw)
    as [(log & out & Heq & _)|(rows & cols & Heq)]; rewrite !Heq; cbn [fst snd].
  - split; [done|]. exists log, [], []. rewrite !app_nil_r. auto.
  - destruct (check_items_skip_unverifiable rows (Z.of_nat (length rows)) cols
                kw wm1 wm2 key positions ∅ true Hkey Hfresh)
      as (Hout & before & after & warning & Hb & Ha & Hw).
    split; [done|]. rewrite Hb, Ha.
    by exists (Verifying :: GridDimensions (Z.of_nat (length rows)) cols :: before),
      after, warning.
Qed.

Lemma verdict_and_unverifiable_keys_witness :
  ((verify_layout GRID_LAYOUT WORD_POSITIONS INTERNAL_KEY_TO_WORD).2 =
     Returns true ↔
   (verify_layout GRID_LAYOUT WORD_POSITIONS INTERNAL_KEY_TO_WORD).2 ≠
     RaisesTypeError ∧
   Forall (λ m, taxonomy_fatal m = false ∧ is_malformed_position m = false)
     (verify_layout GRID_LAYOUT WORD_POSITIONS INTERNAL_KEY_TO_WORD).1) ∧
  (verify_layout GRID_LAYOUT
     ([("IT", VList [span 0 0 1])] ++ ("AM", VList [span 7 9 10]) ::
      [("IS", VList [span 0 3 4])]) INTERNAL_KEY_TO_WORD).2 =
  (verify_layout GRID_LAYOUT
     ([("IT", VList [span 0 0 1])] ++ [("IS", VList [span 0 3 4])])
     INTERNAL_KEY_TO_WORD).2 ∧
  ∃ before after warning,
    (verify_layout GRID_LAYOUT
       ([("IT", VList [span 0 0 1])] ++ [("IS", VList [span 0 3 4])])
       INTERNAL_KEY_TO_WORD).1 = before ++ after ∧
    (verify_layout GRID_LAYOUT
       ([("IT", VList [span 0 0 1])] ++ ("AM", VList [span 7 9 10]) ::
        [("IS", VList [span 0 3 4])]) INTERNAL_KEY_TO_WORD).1 =
      before ++ warning ++ after ∧
    (warning = [] ∨ warning = [Unverifiable "AM"]).
Proof.
  apply (verdict_and_unverifiable_keys GRID_LAYOUT INTERNAL_KEY_TO_WORD
           WORD_POSITIONS [("IT", VList [span 0 0 1])]
           [("IS", VList [span 0 3 4])] "AM" (VList [span 7 9 10])).
  - vm_compute. reflexivity.
  - compute_done.
Defined.

(** C6: on the canonical tables [verify_layout] returns [True] and prints
    no error; the grid is rectangular (10 rows of 11 letters), and for
    every key all spans are in bounds and the slices, concatenated, spell
    the expected word. *)
Theorem canonical_layout_verifies :
  verify_layout GRID_LAYOUT WORD_POSITIONS INTERNAL_KEY_TO_WORD =
    ([Verifying; GridDimensions 10 11; Successful], Returns true) ∧
  GRID_LAYOUT = grid_of canonical_lines ∧
  rectangular canonical_lines 11 ∧
  Forall (λ kp,
      forallb (in_bounds_entry 10 11) (pos_list_of kp.2) = true ∧
      ∃ w, INTERNAL_KEY_TO_WORD !! kp.1 = Some w ∧
           scan_positions (VStr <$> canonical_lines) 10 11 kp.1 w
             (pos_list_of kp.2) EmptyString = Extracted w)
    WORD_POSITIONS.
Proof.
  split; [vm_compute; reflexivity|]. split; [reflexivity|]. split.
  - split; [done|]. split; [lia|]. repeat constructor.
  - unfold WORD_POSITIONS.
    repeat (apply Forall_cons; split;
            [split; [reflexivity|eexists; split; vm_compute; reflexivity]|]).
    apply Forall_nil_2.
Qed.

(** C7 as stated fails: the only span of [AM] has row 99 in a 10-row grid,
    but [AM] is not in the expected-word map, so the key is skipped with a
    warning, no out-of-bounds line is printed and the call returns
    [True]. *)
Lemma out_of_bounds_span_skipped :
  ¬ (0 ≤ 99 < 10) ∧
  verify_layout GRID_LAYOUT [("AM", VList [span 99 0 1])] INTERNAL_KEY_TO_WORD =
  ([Verifying; GridDimensions 10 11; Unverifiable "AM"; Successful],
   Returns true).
Proof. split; [lia | vm_compute; reflexivity]. Qed.

(** C7 (amended): on a rectangular grid, for a key that the expected-word
    map knows, in a position map with distinct keys whose other entries
    hold integer coordinates: if, behind in-bounds spans, a span
    [(r, s, e)] is out of bounds, then that span yields the out-of-bounds
    line and no slice, the loop over the key's spans ends there whatever
    follows, every other key's lines are printed as usual, the key adds
    only that one line, and the call returns [False]. *)
Theorem out_of_bounds_span_fails lines cols kw wm1 wm2 key w positions
    pre bad post r s e :
  rectangular lines cols →
  NoDup (wm1 ++ (key, positions) :: wm2).*1 →
  typed_map (wm1 ++ wm2) = true →
  kw !! key = Some w →
  pos_list_of positions = pre ++ bad :: post →
  forallb (in_bounds_entry (Z.of_nat (length lines)) cols) pre = true →
  unpack3 bad = Some (VInt r, VInt s, VInt e) →
  ¬ (0 ≤ r < Z.of_nat (length lines) ∧ 0 ≤ s < cols ∧ 0 ≤ e < cols ∧ s ≤ e) →
  check_position (VStr <$> lines) (Z.of_nat (length lines)) cols key w bad =
    Defect (OutOfBounds key bad w (Z.of_nat (length lines)) cols) ∧
  (∀ rest acc,
     scan_positions (VStr <$> lines) (Z.of_nat (length lines)) cols key w
       (bad :: rest) acc =
     Aborted (OutOfBounds key bad w (Z.of_nat (length lines)) cols)) ∧
  verify_layout (grid_of lines) (wm1 ++ (key, positions) :: wm2) kw =
  (Verifying :: GridDimensions (Z.of_nat (length lines)) cols ::
     concat (key_report (VStr <$> lines) (Z.of_nat (length lines)) cols kw
               <$> wm1) ++
     [OutOfBounds key bad w (Z.of_nat (length lines)) cols] ++
     concat (key_report (VStr <$> lines) (Z.of_nat (length lines)) cols kw
               <$> wm2) ++
     [Failed],
   Returns false).
Proof.
  intros Hrect Hnodup Htyped Hk Hlist Hpre Hu Hout.
  pose proof (check_position_out_of_bounds (VStr <$> lines) _ cols key w
                bad r s e Hu Hout) as Hbad.
  split; [done|]. split.
  - intros rest acc. cbn [scan_positions]. by rewrite Hbad.
  - eapply verify_layout_first_defect; eauto.
    eapply truthy_of_pos_list; eauto using truthy_unpack3.
Qed.

Lemma out_of_bounds_span_fails_witness :
  check_position (VStr <$> canonical_lines)
      (Z.of_nat (length canonical_lines)) 11 "IS" "IS" (span 10 0 1) =
    Defect (OutOfBounds "IS" (span 10 0 1) "IS"
              (Z.of_nat (length canonical_lines)) 11) ∧
  (∀ rest acc,
     scan_positions (VStr <$> canonical_lines)
       (Z.of_nat (length canonical_lines)) 11 "IS" "IS"
       (span 10 0 1 :: rest) acc =
     Aborted (OutOfBounds "IS" (span 10 0 1) "IS"
                (Z.of_nat (length canonical_lines)) 11)) ∧
  verify_layout (grid_of canonical_lines)
    ([("IT", VList [span 0 0 1])] ++
     ("IS", VList [span 0 3 4; span 10 0 1; span 0 0 0]) ::
     [("A", VList [span 0 10 10])]) INTERNAL_KEY_TO_WORD =
  (Verifying :: GridDimensions (Z.of_nat (length canonical_lines)) 11 ::
     concat (key_report (VStr <$> canonical_lines)
               (Z.of_nat (length canonical_lines)) 11 INTERNAL_KEY_TO_WORD
               <$> [("IT", VList [span 0 0 1])]) ++
     [OutOfBounds "IS" (span 10 0 1) "IS"
        (Z.of_nat (length canonical_lines)) 11] ++
     concat (key_report (VStr <$> canonical_lines)
               (Z.of_nat (length canonical_lines)) 11 INTERNAL_KEY_TO_WORD
               <$> [("A", VList [span 0 10 10])]) ++
     [Failed],
   Returns false).
Proof.
  apply (out_of_bounds_span_fails canonical_lines 11 INTERNAL_KEY_TO_WORD
           [("IT", VList [span 0 0 1])] [("A", VList [span 0 10 10])]
           "IS" "IS" (VList [span 0 3 4; span 10 0 1; span 0 0 0])
           [span 0 3 4] (span 10 0 1) [span 0 0 0] 10 0 1).
  - split; [done|]. split; [lia|]. repeat constructor.
  - compute_done.
  - reflexivity.
  - vm_compute. reflexivity.
  - reflexivity.
  - reflexivity.
  - reflexivity.
  - cbn. lia.
Defined.

(** C10 as stated fails: the entry [(7, 9)] of [AM] has two items, but
    [AM] is not in the expected-word map, so the key is skipped with a
    warning and the call returns [True]. *)
Lemma malformed_entry_skipped :
  unpack3 (VTuple [VInt 7; VInt 9]) = None ∧
  verify_layout GRID_LAYOUT [("AM", VList [VTuple [VInt 7; VInt 9]])]
    INTERNAL_KEY_TO_WORD =
  ([Verifying; GridDimensions 10 11; Unverifiable "AM"; Successful],
   Returns true).
Proof. split; [reflexivity | vm_compute; reflexivity]. Qed.

(** C10 (amended): on a rectangular grid, for a key that the expected-word
    map knows and whose position value is not empty, in a position map
    with distinct keys whose other entries hold integer coordinates: if,
    behind in-bounds spans, an entry is not a list or tuple of exactly
    three items, then that entry yields the malformed-position line, the
    loop over the key's entries ends there whatever follows, every other
    key's lines are printed as usual, and the call returns [False]. *)
Theorem malformed_entry_fails lines cols kw wm1 wm2 key w positions
    pre bad post :
  rectangular lines cols →
  NoDup (wm1 ++ (key, positions) :: wm2).*1 →
  typed_map (wm1 ++ wm2) = true →
  kw !! key = Some w →
  truthy positions = true →
  pos_list_of positions = pre ++ bad :: post →
  forallb (in_bounds_entry (Z.of_nat (length lines)) cols) pre = true →
  unpack3 bad = None →
  check_position (VStr <$> lines) (Z.of_nat (length lines)) cols key w bad =
    Defect (MalformedPosition key bad w) ∧
  (∀ rest acc,
     scan_positions (VStr <$> lines) (Z.of_nat (length lines)) cols key w
       (bad :: rest) acc =
     Aborted (MalformedPosition key bad w)) ∧
  verify_layout (grid_of lines) (wm1 ++ (key, positions) :: wm2) kw =
  (Verifying :: GridDimensions (Z.of_nat (length lines)) cols ::
     concat (key_report (VStr <$> lines) (Z.of_nat (length lines)) cols kw
               <$> wm1) ++
     [MalformedPosition key bad w] ++
     concat (key_report (VStr <$> lines) (Z.of_nat (length lines)) cols kw
               <$> wm2) ++
     [Failed],
   Returns false).
Proof.
  intros Hrect Hnodup Htyped Hk Htruthy Hlist Hpre Hu.
  pose proof (check_position_malformed (VStr <$> lines)
                (Z.of_nat (length lines)) cols key w bad Hu) as Hbad.
  split; [done|]. split.
  - intros rest acc. cbn [scan_positions]. by rewrite Hbad.
  - eapply verify_layout_first_defect; eauto.
Qed.

Lemma malformed_entry_fails_witness :
  check_position (VStr <$> canonical_lines)
      (Z.of_nat (length canonical_lines)) 11 "IS" "IS"
      (VTuple [VInt 0; VInt 3]) =
    Defect (MalformedPosition "IS" (VTuple [VInt 0; VInt 3]) "IS") ∧
  (∀ rest acc,
     scan_positions (VStr <$> canonical_lines)
       (Z.of_nat (length canonical_lines)) 11 "IS" "IS"
       (VTuple [VInt 0; VInt 3] :: rest) acc =
     Aborted (MalformedPosition "IS" (VTuple [VInt 0; VInt 3]) "IS")) ∧
  verify_layout (grid_of canonical_lines)
    ([("IT", VList [span 0 0 1])] ++
     ("IS", VList [VTuple [VInt 0; VInt 3]; span 0 0 0]) ::
     [("A", VList [span 0 10 10])]) INTERNAL_KEY_TO_WORD =
  (Verifying :: GridDimensions (Z.of_nat (length canonical_lines)) 11 ::
     concat (key_report (VStr <$> canonical_lines)
               (Z.of_nat (length canonical_lines)) 11 INTERNAL_KEY_TO_WORD
               <$> [("IT", VList [span 0 0 1])]) ++
     [MalformedPosition "IS" (VTuple [VInt 0; VInt 3]) "IS"] ++
     concat (key_report (VStr <$> canonical_lines)
               (Z.of_nat (length canonical_lines)) 11 INTERNAL_KEY_TO_WORD
               <$> [("A", VList [span 0 10 10])]) ++
     [Failed],
   Returns false).
Proof.
  apply (malformed_entry_fails canonical_lines 11 INTERNAL_KEY_TO_WORD
           [("IT", VList [span 0 0 1])] [("A", VList [span 0 10 10])]
           "IS" "IS" (VList [VTuple [VInt 0; VInt 3]; span 0 0 0])
           [] (VTuple [VInt 0; VInt 3]) [span 0 0 0]).
  - split; [done|]. split; [lia|]. repeat constructor.
  - compute_done.
  - reflexivity.
  - vm_compute. reflexivity.
  - reflexivity.
  - reflexivity.
  - reflexivity.
  - reflexivity.
Defined.

End VerifierClaims.

Import ResolverVocabulary Renderer RendererVocabulary VerifierVocabulary.

(** ** More on the time resolver *)

Module ResolverExtras.
Import ResolverFacts ResolverVocabulary.

(** Rewrite every integer comparison that [lia] can decide. *)
Ltac decide_cmp :=
  repeat match goal with
  | |- context [ (?a <? ?b)%Z ] =>
      first [ rewrite (proj2 (Z.ltb_lt a b)) by lia
            | rewrite (proj2 (Z.ltb_ge a b)) by lia ]
  | |- context [ (?a <=? ?b)%Z ] =>
      first [ rewrite (proj2 (Z.leb_le a b)) by lia
            | rewrite (proj2 (Z.leb_gt a b)) by lia ]
  | |- context [ (?a =? ?b)%Z ] =>
      first [ rewrite (proj2 (Z.eqb_eq a b)) by lia
            | rewrite (proj2 (Z.eqb_neq a b)) by lia ]
  end.

(** For every integer hour and minute and every map, the result is the
    entry of the phrase table for the minute's interval, with the hour
    words that the two lookups deliver. *)
Lemma get_active_words_reading hour minute hw :
  get_active_words hour minute hw =
  reading minute (hw !! display_hour_of hour) (hw !! next_hour_of hour).
Proof.
  unfold get_active_words. fold (display_hour_of hour).
  fold (next_hour_of hour).
  generalize (hw !! display_hour_of hour) (hw !! next_hour_of hour).
  intros c n. unfold reading, interval_keys, in_range, past_half.
  split_cmp; cbn; by destruct c, n.
Qed.

(** X1: for every integer hour and minute and every map, the result is the
    phrase of the minute's interval with the hour word that the lookup
    delivers, the hour word being left out when the lookup fails. *)
Theorem phrase_for_every_input hour minute hw :
  get_active_words hour minute hw =
  reading minute (hw !! display_hour_of hour) (hw !! next_hour_of hour).
Proof. apply get_active_words_reading. Qed.

Lemma get_active_words_mod hour minute hw :
  get_active_words hour minute hw = get_active_words (hour `mod` 12) minute hw.
Proof. unfold get_active_words. by rewrite Z.mod_mod. Qed.

(** The representative of a minute's interval. *)
Lemma reading_rep minute c n :
  0 ≤ minute ≤ 59 →
  ∃ r, r ∈ [0; 1; 5; 10; 15; 20; 25; 30; 35; 40; 45; 50; 55] ∧
       r / 5 = minute / 5 ∧ reading minute c n = reading r c n.
Proof.
  intros Hm.
  assert (Hq : Exists (λ q, minute / 5 = q) [0;1;2;3;4;5;6;7;8;9;10;11]).
  { pose proof (Z.div_le_mono 0 minute 5). pose proof (Z.div_le_mono minute 59 5).
    change (0 / 5) with 0 in *. change (59 / 5) with 11 in *.
    rewrite !Exists_cons. lia. }
  pose proof (Z.mul_div_le minute 5). pose proof (Z.mul_succ_div_gt minute 5).
  rewrite !Exists_cons, Exists_nil in Hq. unfold reading.
  destruct_or!; try done.
  1: destruct (decide (minute = 0));
       [exists 0 | exists 1]; (split; [compute_done|]);
       (split; [symmetry; assumption|]); split_cmp; reflexivity.
  all: match goal with H : _ / 5 = ?q |- _ =>
         exists (5 * q); rewrite H in * end;
    (split; [compute_done|]); (split; [reflexivity|]);
    split_cmp; reflexivity.
Qed.

Lemma clock_reading_of hour minute :
  0 ≤ minute ≤ 59 →
  ∃ p, p ∈ clock_readings ∧ p.1 = hour `mod` 12 ∧ p.2 / 5 = minute / 5 ∧
       get_active_words hour minute HOUR_WORDS =
       get_active_words p.1 p.2 HOUR_WORDS.
Proof.
  intros Hm. rewrite get_active_words_mod, get_active_words_reading.
  destruct (reading_rep minute
              (HOUR_WORDS !! display_hour_of (hour `mod` 12))
              (HOUR_WORDS !! next_hour_of (hour `mod` 12)) Hm)
    as (r & Hr & Hdiv & ->).
  exists (hour `mod` 12, r). cbn [fst snd].
  split; [|by rewrite get_active_words_reading].
  unfold clock_readings. apply list_elem_of_bind. exists (hour `mod` 12).
  split.
  - apply list_elem_of_bind. exists r. split; [set_solver | done].
  - apply elem_of_seqZ. pose proof (Z.mod_pos_bound hour 12). lia.
Qed.

Lemma clock_readings_distinct :
  Forall (λ a, Forall (λ b,
      get_active_words a.1 a.2 HOUR_WORDS = get_active_words b.1 b.2 HOUR_WORDS →
      a.1 = b.1 ∧ a.2 / 5 = b.2 / 5) clock_readings) clock_readings.
Proof. compute_done. Qed.

(** X7: with the complete map the key list tells the time back, up to twelve
    hours and up to the five-minute interval. *)
Theorem reading_determines_time hour minute hour' minute' :
  0 ≤ minute ≤ 59 → 0 ≤ minute' ≤ 59 →
  get_active_words hour minute HOUR_WORDS =
  get_active_words hour' minute' HOUR_WORDS →
  hour `mod` 12 = hour' `mod` 12 ∧ minute / 5 = minute' / 5.
Proof.
  intros Hm Hm' Heq.
  destruct (clock_reading_of hour minute Hm) as (a & Ha & <- & <- & Hga).
  destruct (clock_reading_of hour' minute' Hm') as (b & Hb & <- & <- & Hgb).
  pose proof clock_readings_distinct as Hall.
  rewrite Forall_forall in Hall. specialize (Hall a Ha).
  rewrite Forall_forall in Hall. apply (Hall b Hb). congruence.
Qed.

Lemma reading_determines_time_witness :
  15 `mod` 12 = 3 `mod` 12 ∧ 36 / 5 = 39 / 5.
Proof.
  apply reading_determines_time; [lia | lia | vm_compute; reflexivity].
Defined.

(** X2: the hour enters only modulo 12: morning and afternoon read alike. *)
Theorem twelve_hour_period hour minute hw k :
  get_active_words (hour + 12 * k) minute hw = get_active_words hour minute hw.
Proof.
  rewrite (get_active_words_mod hour), (get_active_words_mod (hour + 12 * k)).
  by rewrite (Z.mul_comm 12 k), Z_mod_plus_full.
Qed.

(** X3: from minute 5 to 59 the result depends on the minute only through its
    five-minute interval, whatever the hour and the map. *)
Theorem five_minute_granularity hour m m' hw :
  5 ≤ m ≤ 59 → 5 ≤ m' ≤ 59 → m / 5 = m' / 5 →
  get_active_words hour m hw = get_active_words hour m' hw.
Proof.
  intros Hm Hm' Hq. rewrite !get_active_words_reading.
  generalize (hw !! display_hour_of hour) (hw !! next_hour_of hour).
  intros c n.
  pose proof (Z.mul_div_le m 5). pose proof (Z.mul_succ_div_gt m 5).
  pose proof (Z.mul_div_le m' 5). pose proof (Z.mul_succ_div_gt m' 5).
  rewrite Hq in *. generalize dependent (m' / 5). intros q _ ? ? ? ?.
  unfold reading. split_cmp; reflexivity.
Qed.

Lemma five_minute_granularity_witness :
  get_active_words 15 35 HOUR_WORDS = get_active_words 15 39 HOUR_WORDS.
Proof. apply five_minute_granularity; [lia | lia | reflexivity]. Defined.

(** X4: minutes below 1 are accepted, negative ones too, and read as the full
    hour.  A failed hour lookup leaves the hour word out. *)
Theorem nonpositive_minute_reads_oclock hour minute hw :
  minute ≤ 0 →
  get_active_words hour minute hw =
  ["IT"; "IS"] ++ option_list (hw !! display_hour_of hour) ++ ["OCLOCK"].
Proof.
  intros Hm. rewrite get_active_words_reading. unfold reading.
  by decide_cmp.
Qed.

Lemma nonpositive_minute_reads_oclock_witness :
  get_active_words 15 (-3) HOUR_WORDS =
  ["IT"; "IS"] ++ option_list (HOUR_WORDS !! display_hour_of 15) ++ ["OCLOCK"].
Proof. apply nonpositive_minute_reads_oclock. lia. Defined.

(** X5: minutes from 60 on are accepted and read as "five to" the next hour,
    without the word MINUTES that minutes 55-59 get. *)
Theorem minute_from_60_reads_five_to hour minute hw :
  60 ≤ minute →
  get_active_words hour minute hw =
  ["IT"; "IS"; "FIVE_M"; "TO"] ++ option_list (hw !! next_hour_of hour).
Proof.
  intros Hm. rewrite get_active_words_reading. unfold reading.
  by decide_cmp.
Qed.

Lemma minute_from_60_reads_five_to_witness :
  get_active_words 15 61 HOUR_WORDS =
  ["IT"; "IS"; "FIVE_M"; "TO"] ++ option_list (HOUR_WORDS !! next_hour_of 15).
Proof. apply minute_from_60_reads_five_to. lia. Defined.

Lemma reading_keys minute c n key :
  key ∈ reading minute c n →
  key ∈ fixed_words ∨ c = Some key ∨ n = Some key.
Proof.
  unfold reading. split_cmp; destruct c, n; cbn;
    rewrite ?elem_of_cons, elem_of_nil; intros Hkey; destruct_or!;
    try done; subst; auto; left; unfold fixed_words;
    repeat first [apply list_elem_of_here | apply list_elem_of_further].
Qed.

(** X6: whatever the arguments, every returned key is one of the twelve
    literal keys or a value the map holds for an hour between 1 and 12. *)
Theorem closed_vocabulary hour minute hw key :
  key ∈ get_active_words hour minute hw →
  key ∈ fixed_words ∨ ∃ d, 1 ≤ d ≤ 12 ∧ hw !! d = Some key.
Proof.
  rewrite get_active_words_reading. intros [?|[Hk|Hk]]%reading_keys; [by left|..];
    right; eexists; (split; [|exact Hk]).
  - apply display_hour_range.
  - apply next_hour_range.
Qed.

Lemma closed_vocabulary_witness :
  "THREE_H" ∈ fixed_words ∨ ∃ d, 1 ≤ d ≤ 12 ∧ HOUR_WORDS !! d = Some "THREE_H".
Proof. apply (closed_vocabulary 15 0 HOUR_WORDS). compute_done. Defined.

(** X8: every key the resolver returns with the complete map has an entry in
    the position table and in the expected-word table: the renderer finds
    positions for it and the verifier has checked them. *)
Theorem resolver_keys_have_positions hour minute key :
  key ∈ get_active_words hour minute HOUR_WORDS →
  key ∈ WORD_POSITIONS.*1 ∧ is_Some (INTERNAL_KEY_TO_WORD !! key).
Proof.
  rewrite get_active_words_reading.
  destruct (canonical_hour_keys hour) as (c & n & -> & -> & Hp).
  assert (Hfixed : Forall (λ k, k ∈ WORD_POSITIONS.*1 ∧
                                is_Some (INTERNAL_KEY_TO_WORD !! k))
                     fixed_words) by compute_done.
  assert (Hhours : Forall (λ p, (p.1 ∈ WORD_POSITIONS.*1 ∧
                                 is_Some (INTERNAL_KEY_TO_WORD !! p.1)) ∧
                                (p.2 ∈ WORD_POSITIONS.*1 ∧
                                 is_Some (INTERNAL_KEY_TO_WORD !! p.2)))
                     hour_pairs) by compute_done.
  rewrite Forall_forall in Hfixed. rewrite Forall_forall in Hhours.
  specialize (Hhours _ Hp).
  intros [?|[[= <-]|[= <-]]]%reading_keys; [by apply Hfixed|apply Hhours..].
Qed.

Lemma resolver_keys_have_positions_witness :
  "FOUR_H" ∈ WORD_POSITIONS.*1 ∧ is_Some (INTERNAL_KEY_TO_WORD !! "FOUR_H").
Proof.
  apply (resolver_keys_have_positions 15 35). compute_done.
Defined.

End ResolverExtras.

(** ** The highlighted cells *)

Module RendererFacts.
Import Renderer RendererVocabulary.

Lemma elem_of_add_span row start_col end_col active cell :
  cell ∈ add_span row start_col end_col active ↔
  cell ∈ active ∨ (cell.1 = row ∧ start_col ≤ cell.2 ≤ end_col).
Proof.
  unfold add_span.
  assert (Hfold : ∀ cols (acc : gset (Z * Z)),
            cell ∈ foldl (λ acc col, {[(row, col)]} ∪ acc) acc cols ↔
            cell ∈ acc ∨ (cell.1 = row ∧ cell.2 ∈ cols)).
  { induction cols as [|col cols IH]; intros acc; cbn.
    - rewrite elem_of_nil. tauto.
    - rewrite IH, elem_of_union, elem_of_singleton, elem_of_cons.
      destruct cell as [r c]. cbn. naive_solver. }
  rewrite Hfold, elem_of_seqZ. split; (intros [?|[? ?]]; [by left|right]);
    (split; [done|lia]).
Qed.

Lemma elem_of_mark_position grid_rows grid_cols key pos_info active
    active' printed cell :
  mark_position grid_rows grid_cols key pos_info active =
    Some (active', printed) →
  cell ∈ active' ↔
  cell ∈ active ∨ entry_covers grid_rows grid_cols pos_info cell.
Proof.
  unfold mark_position, entry_covers.
  destruct (unpack3 pos_info) as [[[a b] c]|] eqn:Hu;
    [|intros [= <- <-]; naive_solver].
  destruct (coords_ok _ _ a b c) as [[]|] eqn:Hok; [| |done].
  - destruct a as [|r|?|?|?]; try done.
    destruct b as [|s|?|?|?]; try done.
    destruct c as [|e|?|?|?]; try done.
    intros [= <- <-]. rewrite elem_of_add_span.
    rewrite VerifierFacts.coords_ok_ints in Hok. injection Hok as Hok.
    apply (VerifierFacts.in_bounds_entry_spec _ _
             (VTuple [VInt r; VInt s; VInt e]) r s e eq_refl) in Hok.
    split; (intros [?|Hc]; [by left|right]).
    + by exists r, s, e.
    + destruct Hc as (r' & s' & e' & [= <- <- <-] & _ & ? & ?). done.
  - intros [= <- <-]. split; [by left|]. intros [?|Hc]; [done|].
    destruct Hc as (r & s & e & [= -> -> ->] & Hin & _).
    rewrite VerifierFacts.coords_ok_ints in Hok. injection Hok as Hok.
    apply (VerifierFacts.in_bounds_entry_spec _ _
             (VTuple [VInt r; VInt s; VInt e]) r s e eq_refl) in Hin.
    congruence.
Qed.

Lemma elem_of_mark_positions grid_rows grid_cols key pos_list active
    active' printed cell :
  mark_positions grid_rows grid_cols key pos_list active =
    Some (active', printed) →
  cell ∈ active' ↔
  cell ∈ active ∨
  ∃ pos_info, pos_info ∈ pos_list ∧
              entry_covers grid_rows grid_cols pos_info cell.
Proof.
  revert active active' printed.
  induction pos_list as [|p ps IH]; intros active active' printed; cbn.
  - intros [= <- <-]. set_solver.
  - destruct (mark_position _ _ _ p active) as [[active1 pr1]|] eqn:Hp;
      [|done].
    destruct (mark_positions _ _ _ ps active1) as [[active2 pr2]|] eqn:Hps;
      [|done].
    intros [= <- <-]. rewrite (IH _ _ _ Hps).
    rewrite (elem_of_mark_position _ _ _ _ _ _ _ _ Hp).
    setoid_rewrite elem_of_cons. naive_solver.
Qed.

Lemma elem_of_mark_keys grid_rows grid_cols active_keys word_positions
    active active' printed cell :
  mark_keys grid_rows grid_cols active_keys word_positions active =
    Some (active', printed) →
  cell ∈ active' ↔
  cell ∈ active ∨
  keys_cover grid_rows grid_cols active_keys word_positions cell.
Proof.
  revert active active' printed. unfold keys_cover.
  induction active_keys as [|key keys IH]; intros active active' printed;
    cbn [mark_keys].
  - intros [= <- <-]. set_solver.
  - destruct (match word_positions !! key with
              | Some positions => _ | None => _ end)
      as [[active1 pr1]|] eqn:Hkey; [|done].
    destruct (mark_keys _ _ keys _ active1) as [[active2 pr2]|] eqn:Hkeys;
      [|done].
    intros [= <- <-]. rewrite (IH _ _ _ Hkeys).
    assert (Hfirst : cell ∈ active1 ↔ cell ∈ active ∨
              ∃ positions pos_info,
                word_positions !! key = Some positions ∧
                truthy positions = true ∧
                pos_info ∈ pos_list_of positions ∧
                entry_covers grid_rows grid_cols pos_info cell).
    { destruct (word_positions !! key) as [positions|];
        [|simplify_eq; split; [by left|]; by intros [?|(? & ? & ? & _)]].
      destruct (truthy positions) eqn:Htruthy.
      - rewrite (elem_of_mark_positions _ _ _ _ _ _ _ _ Hkey).
        split; (intros [?|Hc]; [by left|right]).
        + destruct Hc as (p & ? & ?). by exists positions, p.
        + destruct Hc as (? & p & [= <-] & _ & ? & ?). by exists p.
      - simplify_eq. split; [by left|].
        intros [?|(? & ? & [= <-] & ? & _)]; [done|congruence]. }
    rewrite Hfirst. setoid_rewrite elem_of_cons. naive_solver.
Qed.

(** Whether marking succeeds does not depend on the set marked so far. *)
Lemma mark_position_is_Some grid_rows grid_cols key pos_info active active' :
  is_Some (mark_position grid_rows grid_cols key pos_info active) →
  is_Some (mark_position grid_rows grid_cols key pos_info active').
Proof.
  unfold mark_position. destruct (unpack3 pos_info) as [[[a b] c]|]; [|eauto].
  destruct (coords_ok _ _ a b c) as [[]|]; [|eauto|done].
  destruct a, b, c; eauto.
Qed.

Lemma mark_positions_is_Some grid_rows grid_cols key pos_list active :
  is_Some (mark_positions grid_rows grid_cols key pos_list active) ↔
  Forall (λ p, is_Some (mark_position grid_rows grid_cols key p ∅)) pos_list.
Proof.
  revert active. induction pos_list as [|p ps IH]; intros active; cbn.
  - split; [constructor|eauto].
  - rewrite Forall_cons. split.
    + destruct (mark_position _ _ _ p active) as [[active1 pr1]|] eqn:Hp;
        [|by intros [? [=]]].
      destruct (mark_positions _ _ _ ps active1) as [[active2 pr2]|] eqn:Hps;
        [|by intros [? [=]]].
      intros _. split.
      * apply (mark_position_is_Some _ _ _ _ active). by rewrite Hp.
      * apply (IH active1). by rewrite Hps.
    + intros [Hp Hps].
      apply (mark_position_is_Some _ _ _ _ _ active) in Hp as [[active1 pr1] ->].
      apply (IH active1) in Hps as [[active2 pr2] ->]. eauto.
Qed.

(** The keys on which marking does not raise. *)
Lemma mark_keys_is_Some grid_rows grid_cols active_keys word_positions active :
  is_Some (mark_keys grid_rows grid_cols active_keys word_positions active) ↔
  ∀ key positions,
    key ∈ active_keys → word_positions !! key = Some positions →
    truthy positions = true →
    Forall (λ p, is_Some (mark_position grid_rows grid_cols key p ∅))
      (pos_list_of positions).
Proof.
  revert active. induction active_keys as [|key keys IH]; intros active;
    cbn [mark_keys].
  - split; [|eauto]. intros _ ? ? []%elem_of_nil.
  - assert (Hhead :
      is_Some (match word_positions !! key with
               | Some positions =>
                   if truthy positions
                   then mark_positions grid_rows grid_cols key
                          (pos_list_of positions) active
                   else Some (active, [])
               | None => Some (active, [])
               end) ↔
      ∀ positions, word_positions !! key = Some positions →
        truthy positions = true →
        Forall (λ p, is_Some (mark_position grid_rows grid_cols key p ∅))
          (pos_list_of positions)).
    { destruct (word_positions !! key) as [positions|];
        [|split; [by intros _ ? [=]|eauto]].
      destruct (truthy positions) eqn:Htruthy.
      - rewrite mark_positions_is_Some. split.
        + by intros Hall ? [= <-] _.
        + intros Hall. by apply Hall.
      - split; [intros _ ? [= <-] ?; congruence|eauto]. }
    destruct (match word_positions !! key with
              | Some positions => _ | None => _ end) as [[active1 pr1]|].
    + specialize (IH active1).
      destruct (mark_keys _ _ keys _ active1) as [[active2 pr2]|].
      * split; [|eauto]. intros _ k positions [->|Hk]%elem_of_cons.
        -- by apply Hhead.
        -- by apply IH.
      * split; [by intros [? [=]]|]. intros Hall. exfalso.
        assert (Hnone : is_Some (None : option (gset (Z * Z) * list warning)));
          [|by destruct Hnone].
        apply IH. intros k positions Hk. apply Hall. by right.
    + split; [by intros [? [=]]|]. intros Hall. exfalso.
      assert (Hnone : is_Some (None : option (gset (Z * Z) * list warning)));
        [|by destruct Hnone].
      apply Hhead. intros positions. apply Hall. by left.
Qed.

(** Two key lists with the same elements are marked alike. *)
Lemma mark_keys_by_key_set grid_rows grid_cols ks ks' word_positions :
  (∀ key, key ∈ ks ↔ key ∈ ks') →
  fst <$> active_char_positions grid_rows grid_cols ks word_positions =
  fst <$> active_char_positions grid_rows grid_cols ks' word_positions.
Proof.
  intros Hsame. unfold active_char_positions.
  pose proof (mark_keys_is_Some grid_rows grid_cols ks word_positions ∅) as Hs.
  pose proof (mark_keys_is_Some grid_rows grid_cols ks' word_positions ∅) as Hs'.
  destruct (mark_keys _ _ ks _ ∅) as [[cells pr]|] eqn:Hrun;
    destruct (mark_keys _ _ ks' _ ∅) as [[cells' pr']|] eqn:Hrun'; cbn.
  - f_equal. apply set_eq. intros cell.
    rewrite (elem_of_mark_keys _ _ _ _ _ _ _ _ Hrun).
    rewrite (elem_of_mark_keys _ _ _ _ _ _ _ _ Hrun').
    unfold keys_cover. by setoid_rewrite Hsame.
  - exfalso. assert (Hnone : is_Some (None : option (gset (Z * Z) * list warning)));
      [|by destruct Hnone].
    apply Hs'. intros key positions Hk. apply Hs; [eauto|]. by apply Hsame.
  - exfalso. assert (Hnone : is_Some (None : option (gset (Z * Z) * list warning)));
      [|by destruct Hnone].
    apply Hs. intros key positions Hk. apply Hs'; [eauto|]. by apply Hsame.
  - done.
Qed.

End RendererFacts.

Module RendererExtras.
Import Renderer RendererVocabulary RendererFacts.

(** X9: a cell is highlighted exactly when it lies on an in-bounds integer
    span of a key of [active_keys] that has a non-empty entry in
    [word_positions]. *)
Theorem highlighted_cells grid_rows grid_cols active_keys word_positions
    cells printed cell :
  active_char_positions grid_rows grid_cols active_keys word_positions =
    Some (cells, printed) →
  cell ∈ cells ↔ keys_cover grid_rows grid_cols active_keys word_positions cell.
Proof.
  intros Hrun. unfold active_char_positions in Hrun.
  rewrite (elem_of_mark_keys _ _ _ _ _ _ _ _ Hrun). set_solver.
Qed.

Lemma highlighted_cells_witness :
  (0, 1) ∈ ({[(0, 1)]} ∪ ({[(0, 0)]} ∪ ∅) : gset (Z * Z)) ↔
  keys_cover 10 11 ["IT"] canonical_positions (0, 1).
Proof.
  apply (highlighted_cells 10 11 ["IT"] canonical_positions _ []).
  vm_compute. reflexivity.
Defined.

(** X10: no highlighted cell lies outside the grid, whatever the position
    table holds. *)
Theorem highlighted_cells_in_grid grid_rows grid_cols active_keys
    word_positions cells printed cell :
  active_char_positions grid_rows grid_cols active_keys word_positions =
    Some (cells, printed) →
  cell ∈ cells → 0 ≤ cell.1 < grid_rows ∧ 0 ≤ cell.2 < grid_cols.
Proof.
  intros Hrun Hcell. unfold active_char_positions in Hrun.
  apply (elem_of_mark_keys _ _ _ _ _ _ _ _ Hrun) in Hcell as [[]%elem_of_empty|Hc].
  destruct Hc as (key & positions & p & _ & _ & _ & _ & r & s & e & _ & Hin & Hr & Hc).
  lia.
Qed.

Lemma highlighted_cells_in_grid_witness :
  0 ≤ (0, 1).1 < 10 ∧ 0 ≤ (0, 1).2 < 11.
Proof.
  apply (highlighted_cells_in_grid 10 11 ["IT"] canonical_positions
           ({[(0, 1)]} ∪ ({[(0, 0)]} ∪ ∅)) []).
  - vm_compute. reflexivity.
  - set_solver.
Defined.

(** X11: the highlighted set depends on [active_keys] only as a set of keys:
    order and repetitions do not change it, nor whether the call raises. *)
Theorem highlighted_cells_by_key_set grid_rows grid_cols ks ks' word_positions :
  (∀ key, key ∈ ks ↔ key ∈ ks') →
  fst <$> active_char_positions grid_rows grid_cols ks word_positions =
  fst <$> active_char_positions grid_rows grid_cols ks' word_positions.
Proof. apply mark_keys_by_key_set. Qed.

Lemma highlighted_cells_by_key_set_witness :
  fst <$> active_char_positions 10 11 ["IT"; "IS"; "THREE_H"; "OCLOCK"]
            canonical_positions =
  fst <$> active_char_positions 10 11
            ["IT"; "IS"; "THREE_H"; "OCLOCK"; "THREE_H"] canonical_positions.
Proof.
  apply highlighted_cells_by_key_set. intros key.
  rewrite !elem_of_cons, elem_of_nil. tauto.
Defined.

End RendererExtras.

(** ** The clock face on the canonical layout *)

Module ClockFace.
Import ResolverFacts ResolverVocabulary ResolverExtras.
Import Renderer RendererVocabulary RendererFacts.

(** Within one five-minute interval the key lists have the same
    elements, also in the interval 0-4 where they differ as lists. *)
Lemma reading_same_keys m m' c n key :
  0 ≤ m ≤ 59 → 0 ≤ m' ≤ 59 → m / 5 = m' / 5 →
  key ∈ reading m c n ↔ key ∈ reading m' c n.
Proof.
  intros Hm Hm' Hq.
  pose proof (Z.mul_div_le m 5). pose proof (Z.mul_succ_div_gt m 5).
  pose proof (Z.mul_div_le m' 5). pose proof (Z.mul_succ_div_gt m' 5).
  rewrite Hq in *. generalize dependent (m' / 5). intros q _ ? ? ? ?.
  unfold reading. split_cmp; try done; destruct c; cbn; set_solver.
Qed.

Lemma clock_face_reading hour minute p :
  get_active_words hour minute HOUR_WORDS =
  get_active_words p.1 p.2 HOUR_WORDS →
  clock_face hour minute = clock_face p.1 p.2.
Proof. unfold clock_face. by intros ->. Qed.

Lemma clock_faces_distinct :
  NoDup ((λ a, clock_face a.1 a.2) <$> face_readings).
Proof. compute_done. Qed.

Lemma clock_faces_clean :
  forallb (λ a,
      match active_char_positions 10 11
              (get_active_words a.1 a.2 HOUR_WORDS) canonical_positions with
      | Some (_, []) => true
      | _ => false
      end) clock_readings = true.
Proof. vm_compute. reflexivity. Qed.

Lemma face_reading_of hour minute :
  0 ≤ minute ≤ 59 →
  ∃ p, p ∈ face_readings ∧ p.1 = hour `mod` 12 ∧ p.2 = 5 * (minute / 5) ∧
       clock_face hour minute = clock_face p.1 p.2.
Proof.
  intros Hm. exists (hour `mod` 12, 5 * (minute / 5)). cbn [fst snd].
  assert (Hq : 0 ≤ minute / 5 ≤ 11).
  { pose proof (Z.div_le_mono 0 minute 5). pose proof (Z.div_le_mono minute 59 5).
    change (0 / 5) with 0 in *. change (59 / 5) with 11 in *. lia. }
  split; [|split; [done|split; [done|]]].
  - unfold face_readings. apply list_elem_of_bind. exists (hour `mod` 12).
    split.
    + apply list_elem_of_bind. exists (5 * (minute / 5)).
      split; [set_solver|].
      assert (Hcases : Exists (λ q, minute / 5 = q) [0;1;2;3;4;5;6;7;8;9;10;11]).
      { rewrite !Exists_cons. lia. }
      rewrite !Exists_cons, Exists_nil in Hcases.
      destruct_or!; try done;
        match goal with H : _ / 5 = _ |- _ => rewrite H end; compute_done.
    + apply elem_of_seqZ. pose proof (Z.mod_pos_bound hour 12). lia.
  - unfold clock_face. apply mark_keys_by_key_set. intros key.
    rewrite (get_active_words_mod hour), !get_active_words_reading.
    apply reading_same_keys; [done|lia|].
    rewrite Z.mul_comm, Z.div_mul; lia.
Qed.

(** X12: the highlighted cells are the same throughout a five-minute
    interval, the interval 0-4 included: the hour key that minutes 1-4
    return twice does not show. *)
Theorem face_by_interval hour minute hour' minute' :
  0 ≤ minute ≤ 59 → 0 ≤ minute' ≤ 59 →
  hour `mod` 12 = hour' `mod` 12 → minute / 5 = minute' / 5 →
  clock_face hour minute = clock_face hour' minute'.
Proof.
  intros Hm Hm' Hh Hq.
  destruct (face_reading_of hour minute Hm) as ([h r] & _ & Hh1 & Hr1 & ->).
  destruct (face_reading_of hour' minute' Hm') as ([h' r'] & _ & Hh2 & Hr2 & ->).
  cbn [fst snd] in *. subst. by rewrite Hh, Hq.
Qed.

Lemma face_by_interval_witness : clock_face 15 0 = clock_face 3 4.
Proof. apply face_by_interval; [lia | lia | reflexivity | reflexivity]. Defined.

(** X13: the highlighted cells tell the time back, up to twelve hours and up
    to the five-minute interval, although TEN_M and TEN_H share their
    cells. *)
Theorem face_determines_time hour minute hour' minute' :
  0 ≤ minute ≤ 59 → 0 ≤ minute' ≤ 59 →
  clock_face hour minute = clock_face hour' minute' →
  hour `mod` 12 = hour' `mod` 12 ∧ minute / 5 = minute' / 5.
Proof.
  intros Hm Hm' Heq.
  destruct (face_reading_of hour minute Hm) as (a & Ha & <- & Hr1 & Hfa).
  destruct (face_reading_of hour' minute' Hm') as (b & Hb & <- & Hr2 & Hfb).
  assert (Hab : a = b).
  { pose proof clock_faces_distinct as Hnd.
    apply list_elem_of_lookup in Ha as [i Hi], Hb as [j Hj].
    assert (i = j); [|congruence].
    apply (NoDup_lookup _ i j (clock_face a.1 a.2) Hnd).
    - by rewrite list_lookup_fmap, Hi.
    - rewrite list_lookup_fmap, Hj. cbn [fmap option_fmap option_map].
      f_equal. congruence. }
  subst b. split; [done|]. lia.
Qed.

Lemma face_determines_time_witness :
  15 `mod` 12 = 3 `mod` 12 ∧ 36 / 5 = 39 / 5.
Proof.
  apply face_determines_time; [lia | lia | vm_compute; reflexivity].
Defined.

(** X14: with the complete tables the renderer never raises and never prints
    an out-of-grid warning, at any time of day. *)
Theorem face_renders_cleanly hour minute :
  0 ≤ minute ≤ 59 →
  ∃ cells,
    active_char_positions 10 11 (get_active_words hour minute HOUR_WORDS)
      canonical_positions = Some (cells, []).
Proof.
  intros Hm.
  destruct (clock_reading_of hour minute Hm) as (p & Hp & _ & _ & ->).
  pose proof clock_faces_clean as Hall. rewrite forallb_forall in Hall.
  specialize (Hall p (proj1 (list_elem_of_In _ _) Hp)).
  destruct (active_char_positions _ _ _ _) as [[cells [|? ?]]|]; try done.
  by exists cells.
Qed.

Lemma face_renders_cleanly_witness :
  ∃ cells,
    active_char_positions 10 11 (get_active_words 22 10 HOUR_WORDS)
      canonical_positions = Some (cells, []).
Proof. apply face_renders_cleanly. lia. Defined.

End ClockFace.

(** ** More on the layout verifier *)

Module VerifierMoreFacts.
Import VerifierFacts VerifierVocabulary.

Lemma length_substring (n m : nat) (s : string) :
  (n + m ≤ String.length s)%nat → String.length (substring n m s) = m.
Proof.
  revert n m. induction s as [|a s IH]; intros n m Hlen; cbn in Hlen.
  - assert (n = 0%nat) as -> by lia. assert (m = 0%nat) as -> by lia. done.
  - destruct n as [|n]; cbn.
    + destruct m as [|m]; [done|]. cbn. f_equal. apply (IH 0%nat). lia.
    + apply IH. lia.
Qed.

(** The rows that pass the row loop are strings of the expected length. *)
Lemma check_rows_passes rows r cols :
  check_rows rows r cols = None →
  ∃ lines, rows = VStr <$> lines ∧
           Forall (λ line, Z.of_nat (String.length line) = cols) lines.
Proof.
  revert r. induction rows as [|row rows IH]; intros r; cbn [check_rows].
  - exists []. by split.
  - destruct row as [| |s| |]; cbn; try done.
    destruct (Z.eqb_spec (Z.of_nat (String.length s)) cols) as [Hlen|]; cbn.
    + intros (lines & -> & Hall)%IH. exists (s :: lines). split; [done|].
      by constructor.
    + done.
Qed.

(** Only a rectangular grid gets [True]. *)
Lemma verify_layout_true_rectangular grid word_map kw :
  (verify_layout grid word_map kw).2 = Returns true →
  ∃ lines cols, grid = grid_of lines ∧ rectangular lines cols.
Proof.
  destruct grid as [| | |items|]; try done.
  destruct items as [|[| |first| |] rest]; try done.
  unfold verify_layout. destruct (truthy (VStr first)) eqn:Htruthy; [|done].
  cbn [negb].
  destruct (check_rows _ 0 _) as [[log out]|] eqn:Hrows.
  - by apply check_rows_stops in Hrows as [[-> ->]|(? & ? & -> & ->)].
  - intros _. apply check_rows_passes in Hrows as (lines & Hlines & Hall).
    exists lines, (Z.of_nat (String.length first)). unfold grid_of.
    rewrite Hlines. split; [done|]. split; [|split; [|done]].
    + by destruct lines.
    + destruct first; [done|]. cbn. lia.
Qed.

Section Rectangular.
Context (lines : list string) (cols : Z).
Context (kw : gmap string string).

Local Abbreviation rows := (Z.of_nat (length lines)).
Local Abbreviation grid := (VStr <$> lines).

(** A position entry yields a slice exactly when it is an in-bounds
    integer triple, and the slice is the text it points at. *)
Lemma check_position_segment_iff key w pos_info seg :
  check_position grid rows cols key w pos_info = Segment seg ↔
  in_bounds_entry rows cols pos_info = true ∧ seg = entry_text lines pos_info.
Proof.
  unfold check_position, in_bounds_entry, entry_text.
  destruct (unpack3 pos_info) as [[[a b] c]|] eqn:Hu;
    [|split; [done | by intros [[=] _]]].
  destruct a as [|r|?|?|?];
    try (destruct (coords_ok _ _ _ _ _) as [[]|];
         (split; [done | by intros [[=] _]])).
  destruct b as [|s|?|?|?];
    try (destruct (coords_ok _ _ _ _ _) as [[]|];
         (split; [done | by intros [[=] _]])).
  destruct c as [|e|?|?|?];
    try (destruct (coords_ok _ _ _ _ _) as [[]|];
         (split; [done | by intros [[=] _]])).
  rewrite coords_ok_ints. unfold in_bounds_entry. cbn [unpack3].
  destruct (_ && _) eqn:Hin; [|naive_solver].
  assert (Hr : 0 ≤ r < rows).
  { rewrite !andb_true_iff, !Z.leb_le, !Z.ltb_lt in Hin. lia. }
  destruct (lookup_grid_line lines r Hr) as (line & -> & ->). naive_solver.
Qed.

Lemma scan_positions_extracted key w pos_list acc word :
  scan_positions grid rows cols key w pos_list acc = Extracted word ↔
  forallb (in_bounds_entry rows cols) pos_list = true ∧
  word = foldl (λ word p, word +:+ entry_text lines p) acc pos_list.
Proof.
  revert acc. induction pos_list as [|p ps IH]; intros acc; cbn.
  - naive_solver.
  - pose proof (check_position_segment_iff key w p) as Hp.
    destruct (check_position _ _ _ _ _ p) as [seg| |].
    + destruct (Hp seg) as [[-> ->] _]; [done|]. cbn. apply IH.
    + split; [done|]. intros [[Hin _]%andb_true_iff _].
      discriminate (proj2 (Hp (entry_text lines p)) (conj Hin eq_refl)).
    + split; [done|]. intros [[Hin _]%andb_true_iff _].
      discriminate (proj2 (Hp (entry_text lines p)) (conj Hin eq_refl)).
Qed.

(** A key passes exactly when it has nothing to check or all its spans
    are in bounds and spell the expected word. *)
Lemma key_passes_iff key positions :
  key_passes grid rows cols kw (key, positions) = true ↔
  (truthy positions = true → ∀ w, kw !! key = Some w →
   forallb (in_bounds_entry rows cols) (pos_list_of positions) = true ∧
   spelled lines (pos_list_of positions) = w).
Proof.
  unfold key_passes, check_key, spelled. cbn [fst snd].
  destruct (truthy positions); cbn [negb].
  2: { destruct (kw !! key); naive_solver. }
  destruct (kw !! key) as [w|]; [|naive_solver].
  pose proof (scan_positions_extracted key w (pos_list_of positions)
                EmptyString) as Hscan.
  destruct (scan_positions _ _ _ _ _ _ _) as [word| |].
  - destruct (Hscan word) as [[Hin ->] _]; [done|].
    destruct (String.eqb_spec
                (foldl (λ word p, word +:+ entry_text lines p) EmptyString
                   (pos_list_of positions)) w) as [Heq|Hne]; cbn.
    + split; [|done]. intros _ _ ? [= <-]. done.
    + split; [done|]. intros Hall. destruct (Hall eq_refl w eq_refl). done.
  - split; [done|]. intros Hall. destruct (Hall eq_refl w eq_refl) as [Hin _].
    discriminate (proj2 (Hscan _) (conj Hin eq_refl)).
  - split; [done|]. intros Hall. destruct (Hall eq_refl w eq_refl) as [Hin _].
    discriminate (proj2 (Hscan _) (conj Hin eq_refl)).
Qed.

End Rectangular.

Section Outcome.
Context (grid : list pyval) (grid_rows grid_cols : Z).
Context (kw : gmap string string).

(** What the word-map loop returns, for a map with distinct keys: it
    raises as soon as one key does, and otherwise returns whether every
    key passed. *)
Lemma check_items_outcome items checked all_ok :
  NoDup items.*1 →
  (∀ key, key ∈ items.*1 → key ∉ checked) →
  (check_items grid grid_rows grid_cols kw items checked all_ok).2 =
  if existsb (key_raises grid grid_rows grid_cols kw) items
  then RaisesTypeError
  else Returns
         (all_ok && forallb (key_passes grid grid_rows grid_cols kw) items).
Proof.
  revert checked all_ok.
  induction items as [|[key positions] items IH]; intros checked all_ok
    Hnodup Hfresh.
  - cbn. by rewrite andb_true_r.
  - cbn [check_items existsb forallb]. rewrite fmap_cons, NoDup_cons in Hnodup.
    destruct Hnodup as [Hkey Hnodup].
    destruct (decide (key ∈ checked)) as [Hin|_].
    { exfalso. apply (Hfresh key); [set_solver | done]. }
    assert (Hfresh' : ∀ k, k ∈ items.*1 → k ∉ ({[key]} ∪ checked : gset string)).
    { intros k Hkin. specialize (Hfresh k). set_solver. }
    unfold key_raises at 1, key_passes at 1. cbn [fst snd].
    destruct (check_key _ _ _ _ key positions) as [printed|printed|]; [| |done].
    + specialize (IH _ all_ok Hnodup Hfresh').
      destruct (check_items _ _ _ _ items _ _) as [log out]. cbn in *.
      by rewrite IH.
    + specialize (IH _ false Hnodup Hfresh').
      destruct (check_items _ _ _ _ items _ _) as [log out]. cbn in *.
      rewrite IH. by rewrite andb_false_r.
Qed.

End Outcome.

Lemma existsb_Permutation {A} (f : A → bool) (l l' : list A) :
  l ≡ₚ l' → existsb f l = existsb f l'.
Proof.
  induction 1 as [|x l l' _ IH|x y l|l l' l'' _ IH1 _ IH2]; cbn;
    [done|by rewrite IH|by destruct (f x), (f y)|congruence].
Qed.

Lemma forallb_Permutation {A} (f : A → bool) (l l' : list A) :
  l ≡ₚ l' → forallb f l = forallb f l'.
Proof.
  induction 1 as [|x l l' _ IH|x y l|l l' l'' _ IH1 _ IH2]; cbn;
    [done|by rewrite IH|by destruct (f x), (f y)|congruence].
Qed.

Lemma key_passes_not_raises grid grid_rows grid_cols kw items :
  forallb (key_passes grid grid_rows grid_cols kw) items = true →
  existsb (key_raises grid grid_rows grid_cols kw) items = false.
Proof.
  induction items as [|kp items IH]; cbn; [done|].
  intros [Hp Hps]%andb_true_iff. rewrite (IH Hps), orb_false_r.
  unfold key_passes in Hp. unfold key_raises.
  by destruct (check_key _ _ _ _ _ _).
Qed.

(** On a rectangular grid, for a map with distinct keys: [True] is
    returned exactly when every key passes. *)
Lemma verify_layout_rect_true lines cols word_map kw :
  rectangular lines cols → NoDup word_map.*1 →
  (verify_layout (grid_of lines) word_map kw).2 = Returns true ↔
  forallb (key_passes (VStr <$> lines) (Z.of_nat (length lines)) cols kw)
    word_map = true.
Proof.
  intros Hrect Hnodup. rewrite (verify_layout_rect lines cols _ kw Hrect).
  cbn [snd]. rewrite check_items_outcome by (done || set_solver). cbn [andb].
  split.
  - destruct (existsb _ _); [done|]. by intros [= ->].
  - intros Hall. by rewrite (key_passes_not_raises _ _ _ _ _ Hall), Hall.
Qed.

(** One failing key in a map where nothing raises: its lines appear
    between those of the other keys and the call returns [False]. *)
Lemma verify_layout_key_fails lines cols kw wm1 wm2 key positions printed :
  rectangular lines cols →
  NoDup (wm1 ++ (key, positions) :: wm2).*1 →
  typed_map (wm1 ++ wm2) = true →
  check_key (VStr <$> lines) (Z.of_nat (length lines)) cols kw key positions =
    Fail printed →
  verify_layout (grid_of lines) (wm1 ++ (key, positions) :: wm2) kw =
  (Verifying :: GridDimensions (Z.of_nat (length lines)) cols ::
     concat (key_report (VStr <$> lines) (Z.of_nat (length lines)) cols kw
               <$> wm1) ++
     printed ++
     concat (key_report (VStr <$> lines) (Z.of_nat (length lines)) cols kw
               <$> wm2) ++
     [Failed],
   Returns false).
Proof.
  intros Hrect Hnodup Htyped Hfail.
  apply (typed_map_no_raise lines cols kw), Forall_app in Htyped as [Hty1 Hty2].
  rewrite (verify_layout_rect lines cols _ kw Hrect).
  rewrite check_items_report; [|done|set_solver|].
  - cbn zeta. cbn [fst snd andb].
    rewrite fmap_app, fmap_cons, concat_app, concat_cons, forallb_app.
    cbn [forallb].
    replace (key_report (VStr <$> lines) (Z.of_nat (length lines)) cols kw
               (key, positions)) with printed
      by (unfold key_report; cbn; by rewrite Hfail).
    replace (key_passes (VStr <$> lines) (Z.of_nat (length lines)) cols kw
               (key, positions)) with false
      by (unfold key_passes; cbn; by rewrite Hfail).
    rewrite andb_false_l, andb_false_r. by rewrite <- !app_assoc.
  - apply Forall_app. split; [done|]. apply Forall_cons. split; [|done].
    cbn [fst snd]. by rewrite Hfail.
Qed.

End VerifierMoreFacts.

Module VerifierExtras.
Import VerifierFacts VerifierVocabulary VerifierMoreFacts.

(** X15: for a position map with distinct keys, [verify_layout] returns
    [True] exactly when the grid is a non-empty list of strings of one
    non-zero length and every key that has positions and an expected word
    has all its spans in bounds, spelling that word. *)
Theorem verify_layout_sound_and_complete grid word_map kw :
  NoDup word_map.*1 →
  (verify_layout grid word_map kw).2 = Returns true ↔
  ∃ lines cols,
    grid = grid_of lines ∧ rectangular lines cols ∧
    ∀ key positions w,
      (key, positions) ∈ word_map → truthy positions = true →
      kw !! key = Some w →
      forallb (in_bounds_entry (Z.of_nat (length lines)) cols)
        (pos_list_of positions) = true ∧
      spelled lines (pos_list_of positions) = w.
Proof.
  intros Hnodup. split.
  - intros Htrue.
    destruct (verify_layout_true_rectangular _ _ _ Htrue)
      as (lines & cols & -> & Hrect).
    exists lines, cols. split; [done|]. split; [done|].
    apply (verify_layout_rect_true lines cols word_map kw Hrect Hnodup) in Htrue.
    rewrite forallb_forall in Htrue.
    intros key positions w Hin Htruthy Hw.
    apply (proj1 (key_passes_iff lines cols kw key positions)); [|done..].
    apply Htrue. by apply list_elem_of_In.
  - intros (lines & cols & -> & Hrect & Hall).
    apply (verify_layout_rect_true lines cols word_map kw Hrect Hnodup).
    apply forallb_forall. intros [key positions] Hin%list_elem_of_In.
    apply key_passes_iff. intros Htruthy w Hw. by apply (Hall key positions w).
Qed.

Lemma verify_layout_sound_and_complete_witness :
  (verify_layout GRID_LAYOUT WORD_POSITIONS INTERNAL_KEY_TO_WORD).2 =
    Returns true ↔
  ∃ lines cols,
    GRID_LAYOUT = grid_of lines ∧ rectangular lines cols ∧
    ∀ key positions w,
      (key, positions) ∈ WORD_POSITIONS → truthy positions = true →
      INTERNAL_KEY_TO_WORD !! key = Some w →
      forallb (in_bounds_entry (Z.of_nat (length lines)) cols)
        (pos_list_of positions) = true ∧
      spelled lines (pos_list_of positions) = w.
Proof. apply verify_layout_sound_and_complete. compute_done. Defined.

(** X16: the verdict does not depend on the order of the entries of the
    position map: not the returned boolean, nor whether the call raises. *)
Theorem verdict_order_independent grid word_map word_map' kw :
  NoDup word_map.*1 → word_map ≡ₚ word_map' →
  (verify_layout grid word_map kw).2 = (verify_layout grid word_map' kw).2.
Proof.
  intros Hnodup Hperm.
  assert (Hnodup' : NoDup word_map'.*1) by (by rewrite <- Hperm).
  destruct (verify_layout_cases grid kw)
    as [(log & out & Heq & _)|(rows & cols & Heq)]; rewrite !Heq; [done|].
  cbn [snd]. rewrite !check_items_outcome by (done || set_solver).
  by rewrite (existsb_Permutation _ _ _ Hperm),
    (forallb_Permutation _ _ _ Hperm).
Qed.

Lemma verdict_order_independent_witness :
  (verify_layout GRID_LAYOUT
     [("IT", VList [span 0 0 1]); ("IS", VList [span 0 0 1])]
     INTERNAL_KEY_TO_WORD).2 =
  (verify_layout GRID_LAYOUT
     [("IS", VList [span 0 0 1]); ("IT", VList [span 0 0 1])]
     INTERNAL_KEY_TO_WORD).2.
Proof.
  apply verdict_order_independent; [compute_done | apply Permutation_swap].
Defined.

(** X17: on a rectangular grid, for a key the expected-word map knows, in a
    position map with distinct keys whose other entries hold integer
    coordinates: if all spans of the key are in bounds but spell another
    word, the mismatch line with both words is printed between the other
    keys' lines and the call returns [False]. *)
Theorem mismatch_fails lines cols kw wm1 wm2 key w positions :
  rectangular lines cols →
  NoDup (wm1 ++ (key, positions) :: wm2).*1 →
  typed_map (wm1 ++ wm2) = true →
  kw !! key = Some w →
  truthy positions = true →
  forallb (in_bounds_entry (Z.of_nat (length lines)) cols)
    (pos_list_of positions) = true →
  spelled lines (pos_list_of positions) ≠ w →
  verify_layout (grid_of lines) (wm1 ++ (key, positions) :: wm2) kw =
  (Verifying :: GridDimensions (Z.of_nat (length lines)) cols ::
     concat (key_report (VStr <$> lines) (Z.of_nat (length lines)) cols kw
               <$> wm1) ++
     [Mismatch key w positions (spelled lines (pos_list_of positions))] ++
     concat (key_report (VStr <$> lines) (Z.of_nat (length lines)) cols kw
               <$> wm2) ++
     [Failed],
   Returns false).
Proof.
  intros Hrect Hnodup Htyped Hk Htruthy Hin Hne.
  apply verify_layout_key_fails; [done..|].
  unfold check_key. rewrite Htruthy, Hk. cbn [negb].
  rewrite (proj2 (scan_positions_extracted lines cols key w
                    (pos_list_of positions) EmptyString _) (conj Hin eq_refl)).
  fold (spelled lines (pos_list_of positions)).
  by destruct (String.eqb_spec (spelled lines (pos_list_of positions)) w).
Qed.

Lemma mismatch_fails_witness :
  verify_layout (grid_of canonical_lines)
    ([("IT", VList [span 0 0 1])] ++ ("IS", VList [span 0 0 1]) ::
     [("A", VList [span 0 10 10])]) INTERNAL_KEY_TO_WORD =
  (Verifying :: GridDimensions (Z.of_nat (length canonical_lines)) 11 ::
     concat (key_report (VStr <$> canonical_lines)
               (Z.of_nat (length canonical_lines)) 11 INTERNAL_KEY_TO_WORD
               <$> [("IT", VList [span 0 0 1])]) ++
     [Mismatch "IS" "IS" (VList [span 0 0 1])
        (spelled canonical_lines (pos_list_of (VList [span 0 0 1])))] ++
     concat (key_report (VStr <$> canonical_lines)
               (Z.of_nat (length canonical_lines)) 11 INTERNAL_KEY_TO_WORD
               <$> [("A", VList [span 0 10 10])]) ++
     [Failed],
   Returns false).
Proof.
  apply (mismatch_fails canonical_lines 11 INTERNAL_KEY_TO_WORD
           [("IT", VList [span 0 0 1])] [("A", VList [span 0 10 10])]
           "IS" "IS" (VList [span 0 0 1])).
  - split; [done|]. split; [lia|]. repeat constructor.
  - compute_done.
  - reflexivity.
  - vm_compute. reflexivity.
  - reflexivity.
  - reflexivity.
  - vm_compute. discriminate.
Defined.

(** X18: the end column is inclusive: on a rectangular grid an in-bounds span
    [(r, s, e)] contributes exactly [e - s + 1] letters. *)
Theorem segment_length lines cols key w pos_info r s e :
  rectangular lines cols →
  unpack3 pos_info = Some (VInt r, VInt s, VInt e) →
  0 ≤ r < Z.of_nat (length lines) ∧ 0 ≤ s < cols ∧ 0 ≤ e < cols ∧ s ≤ e →
  ∃ seg,
    check_position (VStr <$> lines) (Z.of_nat (length lines)) cols key w
      pos_info = Segment seg ∧
    Z.of_nat (String.length seg) = e - s + 1.
Proof.
  intros (_ & _ & Hall) Hu Hin.
  exists (entry_text lines pos_info). split.
  - apply check_position_segment_iff. split; [|done].
    by apply (in_bounds_entry_spec _ _ _ r s e Hu).
  - unfold entry_text. rewrite Hu.
    destruct (lookup_grid_line lines r) as (line & Hline & _); [lia|].
    rewrite Hline. rewrite Forall_forall in Hall.
    assert (Hlen : Z.of_nat (String.length line) = cols).
    { apply Hall. by eapply list_elem_of_lookup_2. }
    unfold slice. rewrite length_substring; lia.
Qed.

Lemma segment_length_witness :
  ∃ seg,
    check_position (VStr <$> canonical_lines)
      (Z.of_nat (length canonical_lines)) 11 "QUARTER" "QUARTER"
      (span 1 4 10) = Segment seg ∧
    Z.of_nat (String.length seg) = 10 - 4 + 1.
Proof.
  apply (segment_length canonical_lines 11 "QUARTER" "QUARTER"
           (span 1 4 10) 1 4 10).
  - split; [done|]. split; [lia|]. repeat constructor.
  - reflexivity.
  - cbn. lia.
Defined.

End VerifierExtras.

(** ** Rendering a verified layout *)

Module VerifiedRendering.
Import VerifierFacts VerifierVocabulary VerifierMoreFacts.
Import Renderer RendererVocabulary RendererFacts.

Lemma mark_position_in_bounds grid_rows grid_cols key pos_info active :
  in_bounds_entry grid_rows grid_cols pos_info = true →
  ∃ active', mark_position grid_rows grid_cols key pos_info active =
             Some (active', []).
Proof.
  unfold in_bounds_entry, mark_position.
  destruct (unpack3 pos_info) as [[[a b] c]|]; [|done].
  destruct a as [|r|?|?|?]; try done.
  destruct b as [|s|?|?|?]; try done.
  destruct c as [|e|?|?|?]; try done.
  rewrite coords_ok_ints. unfold in_bounds_entry. cbn [unpack3].
  intros ->. eauto.
Qed.

Lemma mark_positions_in_bounds grid_rows grid_cols key pos_list active :
  forallb (in_bounds_entry grid_rows grid_cols) pos_list = true →
  ∃ active', mark_positions grid_rows grid_cols key pos_list active =
             Some (active', []).
Proof.
  revert active. induction pos_list as [|p ps IH]; intros active; cbn.
  - eauto.
  - intros [Hp Hps]%andb_true_iff.
    destruct (mark_position_in_bounds _ _ key p active Hp) as [active1 ->].
    destruct (IH active1 Hps) as [active2 ->]. eauto.
Qed.

(** X19: after [verify_layout] has returned [True], rendering any keys that
    the expected-word map knows neither raises nor prints an out-of-grid
    warning: the renderer's bounds guard never fires on verified keys. *)
Theorem verified_layout_renders_cleanly lines cols word_map kw active_keys :
  rectangular lines cols → NoDup word_map.*1 →
  (verify_layout (grid_of lines) word_map kw).2 = Returns true →
  (∀ key, key ∈ active_keys → is_Some (kw !! key)) →
  ∃ cells,
    active_char_positions (Z.of_nat (length lines)) cols active_keys
      (list_to_map word_map) = Some (cells, []).
Proof.
  intros Hrect Hnodup Htrue Hknown.
  apply (verify_layout_rect_true lines cols word_map kw Hrect Hnodup) in Htrue.
  rewrite forallb_forall in Htrue. unfold active_char_positions.
  generalize (∅ : gset (Z * Z)).
  induction active_keys as [|key keys IH]; intros active; cbn [mark_keys].
  - eauto.
  - assert (Hhead : ∃ active1,
      match (list_to_map word_map : gmap string pyval) !! key with
      | Some positions =>
          if truthy positions
          then mark_positions (Z.of_nat (length lines)) cols key
                 (pos_list_of positions) active
          else Some (active, [])
      | None => Some (active, [])
      end = Some (active1, [])).
    { destruct (list_to_map word_map !! key) as [positions|] eqn:Hlook;
        [|eauto].
      destruct (truthy positions) eqn:Htruthy; [|eauto].
      apply elem_of_list_to_map in Hlook; [|done].
      destruct (Hknown key) as [w Hw]; [by left|].
      apply mark_positions_in_bounds.
      apply (proj1 (key_passes_iff lines cols kw key positions)
               (Htrue _ (proj1 (list_elem_of_In _ _) Hlook)) Htruthy w Hw). }
    destruct Hhead as [active1 ->].
    destruct (IH (λ k Hk, Hknown k (list_elem_of_further _ _ _ Hk)) active1)
      as [cells ->].
    eauto.
Qed.

Lemma verified_layout_renders_cleanly_witness :
  ∃ cells,
    active_char_positions (Z.of_nat (length canonical_lines)) 11
      ["IT"; "IS"; "HALF"; "THREE_H"] (list_to_map WORD_POSITIONS) =
    Some (cells, []).
Proof.
  apply (verified_layout_renders_cleanly canonical_lines 11 WORD_POSITIONS
           INTERNAL_KEY_TO_WORD).
  - split; [done|]. split; [lia|]. repeat constructor.
  - compute_done.
  - vm_compute. reflexivity.
  - intros key Hkey. rewrite !elem_of_cons, elem_of_nil in Hkey.
    destruct_or!; try done; subst; by eexists.
Defined.

End VerifiedRendering.

(** ** Font search and service loop *)

Module FontSearchExtras.
Import FontSearch.

Lemma first_font_spec path_exists paths :
  match first_font path_exists paths with
  | Some path =>
      ∃ i, paths !! i = Some path ∧ path ≠ EmptyString ∧
           path_exists path = true ∧
           ∀ j other, (j < i)%nat → paths !! j = Some other →
                      other = EmptyString ∨ path_exists other = false
  | None =>
      ∀ path, path ∈ paths → path = EmptyString ∨ path_exists path = false
  end.
Proof.
  induction paths as [|p paths IH]; cbn.
  - by intros ? ?%elem_of_nil.
  - destruct (String.eqb_spec p EmptyString) as [->|Hne]; cbn.
    + destruct (first_font path_exists paths) as [path|].
      * destruct IH as (i & Hi & ? & ? & Hbefore). exists (S i).
        split; [done|]. split; [done|]. split; [done|].
        intros [|j] other Hj; cbn; [intros [= <-]; by left|].
        apply Hbefore. lia.
      * intros path [->|?]%elem_of_cons; [by left|by apply IH].
    + destruct (path_exists p) eqn:Hp.
      * exists 0%nat. split; [done|]. split; [done|]. split; [done|]. lia.
      * destruct (first_font path_exists paths) as [path|].
        -- destruct IH as (i & Hi & ? & ? & Hbefore). exists (S i).
           split; [done|]. split; [done|]. split; [done|].
           intros [|j] other Hj; cbn; [intros [= <-]; by right|].
           apply Hbefore. lia.
        -- intros path [->|?]%elem_of_cons; [by right|by apply IH].
Qed.

(** X20: [find_font] settles on the first candidate, in list order, that
    exists, and on [None] exactly when none of the eighteen does. *)
Theorem find_font_first_existing path_exists :
  match find_font path_exists with
  | Some path =>
      ∃ i, font_paths_to_try !! i = Some path ∧ path_exists path = true ∧
           ∀ j other, (j < i)%nat → font_paths_to_try !! j = Some other →
                      path_exists other = false
  | None => ∀ path, path ∈ font_paths_to_try → path_exists path = false
  end.
Proof.
  assert (Hnonempty : Forall (λ p, p ≠ EmptyString) font_paths_to_try)
    by compute_done.
  rewrite Forall_forall in Hnonempty.
  unfold find_font. pose proof (first_font_spec path_exists font_paths_to_try)
    as Hspec.
  destruct (first_font _ _) as [path|].
  - destruct Hspec as (i & Hi & _ & Hex & Hbefore). exists i.
    split; [done|]. split; [done|]. intros j other Hj Hother.
    destruct (Hbefore j other Hj Hother) as [->|?]; [|done].
    exfalso. apply list_elem_of_lookup_2 in Hother.
    by apply (Hnonempty EmptyString).
  - intros path Hpath. destruct (Hspec path Hpath) as [->|?]; [|done].
    exfalso. by apply (Hnonempty EmptyString).
Qed.

End FontSearchExtras.

Module ServiceLoopExtras.
Import ServiceLoop ResolverFacts ResolverVocabulary ResolverExtras ClockFace.

Section Loop.
Context (image_hash : list string → option Z).


End Loop.



(** X22: once the image of a five-minute interval has been sent, nothing more
    is uploaded while the clock stays in that interval: the images drawn
    there have the same highlighted keys.  The image is taken to depend
    on the key list only through the set of its keys, as the renderer's
    cell set does. *)
Theorem one_upload_per_interval image_hash st rds hour minute h :
  (∀ ks ks', (∀ key, key ∈ ks ↔ key ∈ ks') → image_hash ks = image_hash ks') →
  0 ≤ minute ≤ 59 →
  image_hash (get_active_words hour minute HOUR_WORDS) = Some h →
  last_sent_image_hash st = Some h →
  Forall (λ rd, 0 ≤ now_minute rd ≤ 59 ∧
                now_hour rd `mod` 12 = hour `mod` 12 ∧
                now_minute rd / 5 = minute / 5) rds →
  (iterations image_hash st rds).2 = [] ∧
  last_sent_image_hash (iterations image_hash st rds).1 = Some h.
Proof.
  intros Hset Hm Hh Hst Hall. revert st Hst.
  induction Hall as [|rd rds (Hrm & Hrh & Hrq) _ IH]; intros st Hst; cbn.
  - done.
  - assert (Hsame : image_hash (get_active_words (now_hour rd) (now_minute rd)
                                  HOUR_WORDS) = Some h).
    { rewrite <- Hh. apply Hset. intros key.
      rewrite (get_active_words_mod (now_hour rd)), (get_active_words_mod hour),
        Hrh, !get_active_words_reading.
      by apply reading_same_keys. }
    assert (Hit : ∃ lm, iteration image_hash st rd = (LoopState lm (Some h), [])).
    { unfold iteration. destruct (negb _).
      - rewrite Hsame, Hst, bool_decide_eq_true_2 by done. cbn. eauto.
      - destruct st as [lm ls]. cbn in Hst. subst ls. eauto. }
    destruct Hit as [lm ->]. specialize (IH (LoopState lm (Some h)) eq_refl).
    destruct (iterations image_hash _ rds) as [st2 done_later]. cbn in *.
    done.
Qed.

Lemma one_upload_per_interval_witness :
  (iterations (λ ks, Some (Z.of_nat (length (remove_dups ks))))
     (LoopState 0 (Some 4)) [Tick 15 1 true; Tick 15 2 false]).2 = [] ∧
  last_sent_image_hash
    (iterations (λ ks, Some (Z.of_nat (length (remove_dups ks))))
       (LoopState 0 (Some 4)) [Tick 15 1 true; Tick 15 2 false]).1
  = Some 4.
Proof.
  apply (one_upload_per_interval
           (λ ks, Some (Z.of_nat (length (remove_dups ks))))
           (LoopState 0 (Some 4)) _ 15 0 4).
  - intros ks ks' Hsame. do 2 f_equal.
    apply Permutation_length, NoDup_Permutation;
      [apply NoDup_remove_dups..|].
    intros key. rewrite !elem_of_remove_dups. apply Hsame.
  - lia.
  - reflexivity.
  - reflexivity.
  - repeat constructor; cbn; lia.
Defined.

End ServiceLoopExtras.
